(** * who-calls: static caller tree explorer

    A shallow embedding of [who_calls/who_calls.py]: the [CallGraph] store,
    the definition collector and call resolver of [build_call_graph], and the
    caller-tree printer [print_caller_tree], followed by the properties that
    the specification states about them. *)

From Stdlib Require Import List String Ascii Bool Arith ZArith Lia.
From Stdlib Require Import DecimalString Sorted Permutation.
Import ListNotations.
Open Scope string_scope.
Open Scope list_scope.

Set Implicit Arguments.

(* ------------------------------------------------------------------ *)
(** ** Python strings *)
(* ------------------------------------------------------------------ *)

Module PyStr.

(** [s.split(sep)] for a one-character separator: every occurrence of
    the separator cuts, so the result is never the empty list. *)
Fixpoint split (sep : ascii) (s : string) : list string :=
  match s with
  | EmptyString => [EmptyString]
  | String c rest =>
      if Ascii.eqb c sep then EmptyString :: split sep rest
      else match split sep rest with
           | [] => [String c EmptyString]
           | seg :: segs => String c seg :: segs
           end
  end.

(** [sep.join(parts)] *)
Definition join (sep : string) (parts : list string) : string :=
  String.concat sep parts.

(** [s.startswith(p)] *)
Definition startswith (s p : string) : bool := String.prefix p s.

(** [s.endswith(suf)] *)
Definition endswith (s suf : string) : bool :=
  let n := String.length s in
  let m := String.length suf in
  (m <=? n)%nat && String.eqb (String.substring (n - m) m s) suf.

(** [str(i)] for an [int]. *)
Definition of_int (i : Z) : string := NilZero.string_of_int (Z.to_int i).

(** [e in l] for a list of strings. *)
Definition mem (e : string) (l : list string) : bool :=
  existsb (String.eqb e) l.

(** [sorted(l)]: ascending by code point, stable. *)
Fixpoint insert_sorted (x : string) (l : list string) : list string :=
  match l with
  | [] => [x]
  | y :: rest => if String.ltb x y then x :: l else y :: insert_sorted x rest
  end.

Definition sorted (l : list string) : list string :=
  fold_left (fun acc x => insert_sorted x acc) l [].

End PyStr.

(* ------------------------------------------------------------------ *)
(** ** Python dictionaries keyed by strings (insertion ordered) *)
(* ------------------------------------------------------------------ *)

Module Dict.

Definition t (V : Type) : Type := list (string * V).

Definition empty {V} : t V := [].

(** [d.get(k)], [None] when the key is absent. *)
Fixpoint get {V} (d : t V) (k : string) : option V :=
  match d with
  | [] => None
  | (k', v) :: rest => if String.eqb k k' then Some v else get rest k
  end.

(** [k in d] *)
Definition mem {V} (k : string) (d : t V) : bool :=
  match get d k with Some _ => true | None => false end.

(** [d[k] = v]: an existing key keeps its position, a new one goes last. *)
Fixpoint set {V} (d : t V) (k : string) (v : V) : t V :=
  match d with
  | [] => [(k, v)]
  | (k', v') :: rest =>
      if String.eqb k k' then (k', v) :: rest else (k', v') :: set rest k v
  end.

(** iteration over the keys, [for k in d] *)
Definition keys {V} (d : t V) : list string := map fst d.

(** [{k: v for k, v in d.items() if keep(k)}] *)
Definition restrict {V} (keep : string -> bool) (d : t V) : t V :=
  filter (fun kv => keep (fst kv)) d.

End Dict.

(* ------------------------------------------------------------------ *)
(** ** networkx.DiGraph, as far as the program uses it *)
(* ------------------------------------------------------------------ *)

Module DiGraph.

(** Nodes in insertion order, without repetition; edges without
    multiplicity.  The program reads adjacency only through membership
    tests, [sorted] and reachability. *)
Record t : Type := mk { nodes : list string; edges : list (string * string) }.

Definition empty : t := mk [] [].

Definition edge_eqb (e1 e2 : string * string) : bool :=
  String.eqb (fst e1) (fst e2) && String.eqb (snd e1) (snd e2).

Definition has_node (g : t) (n : string) : bool := PyStr.mem n (nodes g).

Definition has_edge (g : t) (u v : string) : bool :=
  existsb (edge_eqb (u, v)) (edges g).

(** [g.add_node(n)] *)
Definition add_node (g : t) (n : string) : t :=
  if has_node g n then g else mk (nodes g ++ [n]) (edges g).

(** [g.add_edge(u, v)]: endpoints that are not nodes yet become nodes. *)
Definition add_edge (g : t) (u v : string) : t :=
  let g1 := add_node g u in
  let g2 := add_node g1 v in
  if has_edge g2 u v then g2 else mk (nodes g2) (edges g2 ++ [(u, v)]).

(** [g.successors(n)] *)
Definition successors (g : t) (n : string) : list string :=
  map snd (filter (fun e => String.eqb (fst e) n) (edges g)).

(** [g.predecessors(n)] *)
Definition predecessors (g : t) (n : string) : list string :=
  map fst (filter (fun e => String.eqb (snd e) n) (edges g)).

(** [g.subgraph(keep).copy()]: the induced subgraph, as a graph of its own.
    The nodes and edges are listed here in the order of [g].  networkx
    lists them so when at least half of the nodes are kept, and in the
    iteration order of the set of kept nodes otherwise; what is stated
    about a filtered graph below is about its nodes and edges as sets,
    unless every node is kept. *)
Definition subgraph (g : t) (keep : list string) : t :=
  mk (filter (fun n => PyStr.mem n keep) (nodes g))
     (filter (fun e => PyStr.mem (fst e) keep && PyStr.mem (snd e) keep)
             (edges g)).

(** One round of a breadth-first search: the nodes seen so far together
    with their successors. *)
Definition expand (g : t) (seen : list string) : list string :=
  fold_left
    (fun acc n =>
       fold_left (fun acc' s => if PyStr.mem s acc' then acc' else acc' ++ [s])
                 (successors g n) acc)
    seen seen.

(** [nx.has_path(g, source, target)]: a directed path exists (the empty
    path included).  A path visits each node at most once, so as many
    rounds as there are nodes reach everything reachable. *)
Definition has_path (g : t) (source target : string) : bool :=
  PyStr.mem target
    (Nat.iter (List.length (nodes g)) (expand g) [source]).

End DiGraph.

(* ------------------------------------------------------------------ *)
(** ** Exceptions, standard output *)
(* ------------------------------------------------------------------ *)

(** The argument of [sys.exit]: an integer status, or a message that the
    interpreter writes to standard error before exiting with status 1. *)
Inductive exit_arg : Type :=
| ExitCode (status : Z)
| ExitMessage (text : string).

Definition exit_status (a : exit_arg) : Z :=
  match a with
  | ExitCode status => status
  | ExitMessage _ => 1%Z
  end.

Inductive exn : Type :=
| IndexError
| RecursionError
| SystemExit (arg : exit_arg).

(** A computation that prints lines and then returns or raises. *)
Definition Py (A : Type) : Type := list string -> list string * (exn + A).

Definition ret {A} (a : A) : Py A := fun out => (out, inr a).

Definition raise {A} (e : exn) : Py A := fun out => (out, inl e).

Definition bind {A B} (m : Py A) (k : A -> Py B) : Py B :=
  fun out =>
    match m out with
    | (out', inl e) => (out', inl e)
    | (out', inr a) => k a out'
    end.

Definition print (line : string) : Py unit := fun out => (out ++ [line], inr tt).

Definition lift {A} (r : exn + A) : Py A := fun out => (out, r).

Declare Scope py_scope.
Delimit Scope py_scope with py.
Notation "x <- m ;; k" := (bind m (fun x => k))
  (at level 61, m at next level, right associativity) : py_scope.
Notation "m ;;; k" := (bind m (fun _ => k))
  (at level 61, right associativity) : py_scope.

(** [for x in xs: body x] *)
Fixpoint for_each {A} (xs : list A) (body : A -> Py unit) : Py unit :=
  match xs with
  | [] => ret tt
  | x :: rest => bind (body x) (fun _ => for_each rest body)
  end.

(** [enumerate(xs)] *)
Fixpoint enumerate_from {A} (i : nat) (xs : list A) : list (nat * A) :=
  match xs with
  | [] => []
  | x :: rest => (i, x) :: enumerate_from (S i) rest
  end.

Definition enumerate {A} (xs : list A) : list (nat * A) := enumerate_from 0 xs.

(** [xs[-1]] *)
Definition last_item {A} (xs : list A) : exn + A :=
  match rev xs with
  | [] => inl IndexError
  | x :: _ => inr x
  end.

(** [i == len(xs) - 1] on Python integers. *)
Definition is_last_index {A} (i : nat) (xs : list A) : bool :=
  Z.eqb (Z.of_nat i) (Z.of_nat (List.length xs) - 1).

(* ------------------------------------------------------------------ *)
(** ** class CallGraph *)
(* ------------------------------------------------------------------ *)

(** A [pathlib.Path], by its POSIX rendering. *)
Record Path : Type := mkPath { as_posix : string }.

(** A compiled regular expression, by the outcome of [pattern.search]. *)
Definition Pattern : Type := string -> bool.

Record CallGraph : Type := mkCallGraph {
  graph : DiGraph.t;
  src : Dict.t Path;
  lines : Dict.t Z
}.

(** [CallGraph.filtered] *)
Definition filtered (self : CallGraph) (pattern : Pattern) : CallGraph :=
  let nodes := filter pattern (DiGraph.nodes (graph self)) in
  let sub := DiGraph.subgraph (graph self) nodes in
  let src' := Dict.restrict (fun k => PyStr.mem k nodes) (src self) in
  let lines' := Dict.restrict (fun k => PyStr.mem k nodes) (lines self) in
  mkCallGraph sub src' lines'.

Definition or_default {A} (o : option A) (d : A) : A :=
  match o with Some a => a | None => d end.

(** [CallGraph.label] *)
Definition label (self : CallGraph) (node : string) : exn + string :=
  match last_item (PyStr.split "." node) with
  | inl e => inl e
  | inr func =>
      let file := or_default (Dict.get (src self) node) (mkPath "?") in
      inr (func ++ " @ " ++ as_posix file ++ ":"
                ++ PyStr.of_int (or_default (Dict.get (lines self) node) 1%Z))%string
  end.

(* ------------------------------------------------------------------ *)
(** ** Syntax trees *)
(* ------------------------------------------------------------------ *)

Unset Elimination Schemes.

(** The node classes of [ast] that the program tells apart; every other
    class is [Other].  [children] lists the child nodes in field order, as
    [ast.iter_child_nodes] yields them. *)
Inductive ast : Type :=
| FunctionDef (name : string) (lineno : Z) (children : list ast)
| AsyncFunctionDef (name : string) (lineno : Z) (children : list ast)
| ClassDef (name : string) (children : list ast)
| Call (func : ast) (args : list ast)
| Name (id : string)
| Attribute (value : ast) (attr : string)
| Other (children : list ast).
Set Elimination Schemes.

Definition iter_child_nodes (n : ast) : list ast :=
  match n with
  | FunctionDef _ _ children => children
  | AsyncFunctionDef _ _ children => children
  | ClassDef _ children => children
  | Call func args => func :: args
  | Name _ => []
  | Attribute value _ => [value]
  | Other children => children
  end.

(** Number of nodes of a tree. *)
Fixpoint size (n : ast) : nat :=
  match n with
  | FunctionDef _ _ children => S (list_sum (map size children))
  | AsyncFunctionDef _ _ children => S (list_sum (map size children))
  | ClassDef _ children => S (list_sum (map size children))
  | Call func args => S (size func + list_sum (map size args))
  | Name _ => 1
  | Attribute value _ => S (size value)
  | Other children => S (list_sum (map size children))
  end.

Definition sizes (l : list ast) : nat := list_sum (map size l).

(** The loop of [ast.walk]: pop the head of the queue, queue its children,
    yield it.  [steps] bounds the number of iterations. *)
Fixpoint walk_queue (steps : nat) (todo : list ast) : list ast :=
  match steps with
  | O => []
  | S steps' =>
      match todo with
      | [] => []
      | n :: rest => n :: walk_queue steps' (rest ++ iter_child_nodes n)
      end
  end.

(** [ast.walk(node)]: the loop runs once per node of the tree. *)
Definition ast_walk (node : ast) : list ast := walk_queue (size node) [node].

(* ------------------------------------------------------------------ *)
(** ** build_call_graph *)
(* ------------------------------------------------------------------ *)

(** What [ast.parse(path.read_text(errors="ignore"))] does with a file
    after which the loop goes on: it raises [SyntaxError], which line 65
    catches, or it returns a tree.  Every other way for the loop body to
    end is an [Escapes] of [yielded], below. *)
Inductive parse_outcome : Type :=
| SyntaxError
| Parsed (tree : ast).

(** One path yielded by [root.rglob("*.py")] that the loop body gets
    through, with what the file system and the parser say about it. *)
Record SourceFile : Type := mkSourceFile {
  path : Path;                 (* the path as yielded *)
  rel : string;                (* path.relative_to(root).as_posix() *)
  module_parts : list string;  (* the parts of the relative path, suffix dropped *)
  parsed : parse_outcome
}.

(** The four structures that [build_call_graph] fills. *)
Record Build : Type := mkBuild {
  b_graph : DiGraph.t;
  defs : Dict.t ast;
  src_map : Dict.t Path;
  line_map : Dict.t Z
}.

Definition Build_empty : Build :=
  mkBuild DiGraph.empty Dict.empty Dict.empty Dict.empty.

(** A [Collector] instance at work: its class stack and the structures of
    the enclosing [build_call_graph] that it writes to. *)
Record Collector : Type := mkCollector {
  cls : list string;
  env : Build
}.

Section Collect.

Variable module : string.
Variable file_path : Path.

(** [self.cls.append(name)] *)
Definition cls_append (c : Collector) (name : string) : Collector :=
  mkCollector (cls c ++ [name]) (env c).

(** [self.cls.pop()] *)
Definition cls_pop (c : Collector) : Collector :=
  mkCollector (removelast (cls c)) (env c).

(** The qualified name computed by [_add]. *)
Definition qualname (stack : list string) (name : string) : string :=
  (module ++ "." ++ PyStr.join "." (stack ++ [name]))%string.

(** The four writes of [_add], before it descends. *)
Definition register (c : Collector) (name : string) (lineno : Z) (node : ast)
  : Collector :=
  let q := qualname (cls c) name in
  let b := env c in
  mkCollector (cls c)
    (mkBuild (DiGraph.add_node (b_graph b) q)
             (Dict.set (defs b) q node)
             (Dict.set (src_map b) q file_path)
             (Dict.set (line_map b) q lineno)).

(** [Collector.visit]: [visit_ClassDef], [_add] for both kinds of function
    definition, and [generic_visit] for every other node. *)
Fixpoint visit (node : ast) (c : Collector) : Collector :=
  let generic_visit (children : list ast) (c : Collector) :=
    fold_left (fun c child => visit child c) children c in
  match node with
  | ClassDef name children =>
      cls_pop (generic_visit children (cls_append c name))
  | FunctionDef name lineno children =>
      generic_visit children (register c name lineno node)
  | AsyncFunctionDef name lineno children =>
      generic_visit children (register c name lineno node)
  | Call func args => generic_visit args (visit func c)
  | Name _ => c
  | Attribute value _ => visit value c
  | Other children => generic_visit children c
  end.

Definition generic_visit (children : list ast) (c : Collector) : Collector :=
  fold_left (fun c child => visit child c) children c.

End Collect.

(** The body of the first loop of [build_call_graph] for one path. *)
Definition collect_file (rx_exclude : Pattern) (b : Build) (f : SourceFile) : Build :=
  if rx_exclude (rel f) then b
  else match parsed f with
       | SyntaxError => b
       | Parsed tree =>
           let module := PyStr.join "." (module_parts f) in
           env (visit module (path f) tree (mkCollector [] b))
       end.

(** [".".join(caller.split(".")[:-1])] *)
Definition caller_prefix_of (caller : string) : string :=
  PyStr.join "." (removelast (PyStr.split "." caller)).

(** [[d for d in defs if d.endswith("." + name)]] *)
Definition trailing_matches (defs : Dict.t ast) (name : string) : list string :=
  filter (fun d => PyStr.endswith d ("." ++ name)%string) (Dict.keys defs).

(** [n.func.value.id in {"self", "cls"}] *)
Definition is_self_or_cls (id : string) : bool :=
  String.eqb id "self" || String.eqb id "cls".

(** The candidate list computed for a call whose callee expression is [func]. *)
Definition callee_candidates (defs : Dict.t ast) (caller_prefix : string)
    (func : ast) : list string :=
  match func with
  | Name id => trailing_matches defs id
  | Attribute value attr =>
      let same_class :=
        match value with
        | Name id =>
            if is_self_or_cls id then
              let same_cls := (caller_prefix ++ "." ++ attr)%string in
              if Dict.mem same_cls defs then [same_cls] else []
            else []
        | _ => []
        end in
      match same_class with
      | [] => trailing_matches defs attr
      | _ :: _ => same_class
      end
  | _ => []
  end.

(** [same_pkg or callee_candidates] *)
Definition surviving (caller_prefix : string) (candidates : list string)
    : list string :=
  match filter (fun c => PyStr.startswith c caller_prefix) candidates with
  | [] => candidates
  | same_pkg => same_pkg
  end.

(** The linking step: one [add_edge] per surviving candidate. *)
Definition link (g : DiGraph.t) (caller caller_prefix : string)
    (candidates : list string) : DiGraph.t :=
  match candidates with
  | [] => g
  | _ :: _ =>
      fold_left (fun g callee => DiGraph.add_edge g caller callee)
                (surviving caller_prefix candidates) g
  end.

(** The body of the inner loop, for one node yielded by [ast.walk]. *)
Definition resolve_node (defs : Dict.t ast) (caller : string) (g : DiGraph.t)
    (n : ast) : DiGraph.t :=
  match n with
  | Call func _ =>
      let caller_prefix := caller_prefix_of caller in
      link g caller caller_prefix (callee_candidates defs caller_prefix func)
  | _ => g
  end.

(** The body of the second loop, for one item of [defs.items()]. *)
Definition resolve_def (defs : Dict.t ast) (g : DiGraph.t)
    (item : string * ast) : DiGraph.t :=
  fold_left (resolve_node defs (fst item)) (ast_walk (snd item)) g.

Definition add_edges (defs : Dict.t ast) (g : DiGraph.t) : DiGraph.t :=
  fold_left (resolve_def defs) defs g.

(** The state after the first loop. *)
Definition collect (files : list SourceFile) (rx_exclude : Pattern) : Build :=
  fold_left (collect_file rx_exclude) files Build_empty.

(** [build_call_graph] when no exception escapes it; [files] is what
    [root.rglob("*.py")] yields. *)
Definition build_call_graph (files : list SourceFile) (rx_exclude : Pattern)
    : CallGraph :=
  let b := collect files rx_exclude in
  mkCallGraph (add_edges (defs b) (b_graph b)) (src_map b) (line_map b).

(** *** The exceptions that escape the build *)

(** Line 65 catches [SyntaxError] and nothing else.  What else the body
    of the first loop can raise goes up through [build_call_graph]:
    [path.read_text] raises [OSError] (a directory named like a module, a
    file that cannot be read), [ast.parse] raises [ValueError] (a null
    byte in the source, before Python 3.12), [MemoryError] or
    [RecursionError], and the visit of a tree nested deeper than the
    interpreter allows raises [RecursionError]. *)
Inductive escaping : Type :=
| ValueError
| MemoryError
| DeepRecursion
| OSError.

(** One path yielded by [root.rglob("*.py")]: the loop body gets through
    it, or, unless the path is excluded first, it raises. *)
Inductive yielded : Type :=
| Processed (f : SourceFile)
| Escapes (rel : string) (e : escaping).

(** The paths that the loop body gets through. *)
Definition processed (ys : list yielded) : list SourceFile :=
  flat_map (fun y => match y with Processed f => [f] | Escapes _ _ => [] end) ys.

(** The first loop, which an exception ends. *)
Fixpoint scan (rx_exclude : Pattern) (b : Build) (ys : list yielded)
    : escaping + Build :=
  match ys with
  | [] => inr b
  | Processed f :: rest => scan rx_exclude (collect_file rx_exclude b f) rest
  | Escapes rel e :: rest =>
      if rx_exclude rel then scan rx_exclude b rest else inl e
  end.

(** [build_call_graph], returning or raising. *)
Definition build_call_graph_or_raise (ys : list yielded) (rx_exclude : Pattern)
    : escaping + CallGraph :=
  match scan rx_exclude Build_empty ys with
  | inl e => inl e
  | inr b =>
      inr (mkCallGraph (add_edges (defs b) (b_graph b)) (src_map b) (line_map b))
  end.

(* ------------------------------------------------------------------ *)
(** ** print_caller_tree *)
(* ------------------------------------------------------------------ *)

Section Printer.

Variable cgraph : CallGraph.

(** [[n for n in graph if n.endswith("." + target) or n == target]] *)
Definition matches (target : string) : list string :=
  filter (fun n => PyStr.endswith n ("." ++ target)%string || String.eqb n target)
         (DiGraph.nodes (graph cgraph)).

(** [{n for n in graph if nx.has_path(graph, n, tgt)}] *)
Definition ancestors (tgt : string) : list string :=
  filter (fun n => DiGraph.has_path (graph cgraph) n tgt)
         (DiGraph.nodes (graph cgraph)).

(** [sorted(n for n in anc if not any(p in anc for p in graph.predecessors(n)))] *)
Definition roots_of (anc : list string) : list string :=
  PyStr.sorted
    (filter (fun n => negb (existsb (fun p => PyStr.mem p anc)
                                    (DiGraph.predecessors (graph cgraph) n)))
            anc).

(** [sorted(c for c in graph.successors(node) if c in anc)] *)
Definition kids_of (anc : list string) (node : string) : list string :=
  PyStr.sorted
    (filter (fun c => PyStr.mem c anc) (DiGraph.successors (graph cgraph) node)).

(** The nested function [walk].  [depth] is the number of frames left
    before the interpreter raises [RecursionError]. *)
Fixpoint walk (depth : nat) (anc : list string) (node prefix : string)
    (last : bool) : Py unit :=
  match depth with
  | O => raise RecursionError
  | S depth' =>
      let branch := if last then "└── " else "├── " in
      (text <- lift (label cgraph node) ;;
       print (prefix ++ branch ++ text)%string ;;;
       let kids := kids_of anc node in
       for_each (enumerate kids)
         (fun ik =>
            walk depth' anc (snd ik)
                 (prefix ++ (if last then "    " else "│   "))%string
                 (is_last_index (fst ik) kids)))%py
  end.

(** [print_caller_tree(cgraph, target)], run with [depth] frames. *)
Definition print_caller_tree (depth : nat) (target : string) : Py unit :=
  let found := matches target in
  match found with
  | [] =>
      raise (SystemExit
               (ExitMessage ("✘ function '" ++ target ++ "' not found")%string))
  | tgt :: others =>
      match others with
      | _ :: _ =>
          (print "⚠ Ambiguous function name. Matches:" ;;;
           for_each found (fun m => print ("  • " ++ m)%string) ;;;
           print "Please specify full path like <module>.<func> or <module>.<Class>.<method>." ;;;
           raise (SystemExit (ExitCode 1)))%py
      | [] =>
          let anc := ancestors tgt in
          let roots := roots_of anc in
          for_each (enumerate roots)
            (fun ir => walk depth anc (snd ir) EmptyString
                            (is_last_index (fst ir) roots))
      end
  end.

End Printer.

(* ------------------------------------------------------------------ *)
(** ** Objects and references *)
(* ------------------------------------------------------------------ *)

(** [filtered] at the level of objects: a [CallGraph] instance refers to a
    graph and two dictionaries, all of them mutable objects in a store. *)
Module Store.

Inductive obj : Type :=
| ObjDiGraph (g : DiGraph.t)
| ObjSrc (d : Dict.t Path)
| ObjLines (d : Dict.t Z)
| ObjCallGraph (graph_ref src_ref lines_ref : nat).

Definition t : Type := list obj.

(** A new object gets the next free reference. *)
Definition alloc (h : t) (o : obj) : t * nat := (h ++ [o], List.length h).

(** The value of the [CallGraph] instance at [ref]. *)
Definition read (h : t) (ref : nat) : option CallGraph :=
  match nth_error h ref with
  | Some (ObjCallGraph rg rs rl) =>
      match nth_error h rg, nth_error h rs, nth_error h rl with
      | Some (ObjDiGraph g), Some (ObjSrc s), Some (ObjLines l) =>
          Some (mkCallGraph g s l)
      | _, _, _ => None
      end
  | _ => None
  end.

(** [self.filtered(pattern)]: [subgraph(...).copy()], the two dictionary
    comprehensions and the constructor each make a new object. *)
Definition filtered (h : t) (self : nat) (pattern : Pattern) : option (t * nat) :=
  match read h self with
  | None => None
  | Some cg =>
      let nodes := filter pattern (DiGraph.nodes (graph cg)) in
      let (h1, sub) := alloc h (ObjDiGraph (DiGraph.subgraph (graph cg) nodes)) in
      let (h2, src') :=
        alloc h1 (ObjSrc (Dict.restrict (fun k => PyStr.mem k nodes) (src cg))) in
      let (h3, lines') :=
        alloc h2 (ObjLines (Dict.restrict (fun k => PyStr.mem k nodes) (lines cg))) in
      Some (alloc h3 (ObjCallGraph sub src' lines'))
  end.

End Store.

(* ------------------------------------------------------------------ *)
(** ** Vocabulary of the specification *)
(* ------------------------------------------------------------------ *)

(** [encloses tree stack d]: the node [d] occurs in [tree], and [stack]
    lists the names of the class definitions around it inside [tree],
    outermost first.  Function definitions around [d] leave [stack] as it is. *)
Inductive encloses : ast -> list string -> ast -> Prop :=
| enc_here : forall d, encloses d [] d
| enc_class : forall name children child stack d,
    In child children -> encloses child stack d ->
    encloses (ClassDef name children) (name :: stack) d
| enc_child : forall n child stack d,
    (forall name children, n <> ClassDef name children) ->
    In child (iter_child_nodes n) -> encloses child stack d ->
    encloses n stack d.

(** The name that a function definition, plain or asynchronous, binds. *)
Definition def_name (d : ast) : option string :=
  match d with
  | FunctionDef name _ _ => Some name
  | AsyncFunctionDef name _ _ => Some name
  | _ => None
  end.

(** [discovered files rx_exclude q]: some function definition of a file
    that is neither excluded nor broken has the qualified name [q], made of
    the module, the classes around the definition and its own name. *)
Definition discovered (files : list SourceFile) (rx_exclude : Pattern)
    (q : string) : Prop :=
  exists f tree stack d name,
    In f files /\ rx_exclude (rel f) = false /\ parsed f = Parsed tree /\
    encloses tree stack d /\ def_name d = Some name /\
    q = qualname (PyStr.join "." (module_parts f)) stack name.

(** The key set of each metadata map is the node set of the graph. *)
Definition covered (cg : CallGraph) : Prop :=
  forall k,
    (In k (Dict.keys (src cg)) <-> In k (DiGraph.nodes (graph cg))) /\
    (In k (Dict.keys (lines cg)) <-> In k (DiGraph.nodes (graph cg))).

(** The structures filled by the collector agree on their keys. *)
Definition consistent (b : Build) : Prop :=
  DiGraph.nodes (b_graph b) = Dict.keys (defs b) /\
  Dict.keys (src_map b) = Dict.keys (defs b) /\
  Dict.keys (line_map b) = Dict.keys (defs b).

(** A run that either returns or runs out of frames. *)
Definition returns_or_overflows (r : list string * (exn + unit)) : Prop :=
  snd r = inr tt \/ snd r = inl RecursionError.

(** [reaches g u w]: a directed path of [g], possibly empty, leads from
    [u] to [w]. *)
Inductive reaches (g : DiGraph.t) : string -> string -> Prop :=
| reaches_here : forall n, reaches g n n
| reaches_step : forall u v w,
    In (u, v) (DiGraph.edges g) -> reaches g v w -> reaches g u w.

(** No edge of the graph dangles. *)
Definition closed (g : DiGraph.t) : Prop :=
  forall u v, In (u, v) (DiGraph.edges g) ->
              In u (DiGraph.nodes g) /\ In v (DiGraph.nodes g).

(** No character of [s] is a dot. *)
Fixpoint dotless (s : string) : bool :=
  match s with
  | EmptyString => true
  | String c rest => negb (Ascii.eqb c ".") && dotless rest
  end.

(* ------------------------------------------------------------------ *)
(** ** Sample inputs *)
(* ------------------------------------------------------------------ *)

Module Samples.

(** An exclusion pattern that matches no path, as ["$^"] in the tests. *)
Definition no_exclude : Pattern := fun _ => false.

Definition in_module_m (tree : ast) : SourceFile :=
  mkSourceFile (mkPath "m.py") "m.py" ["m"] (Parsed tree).

(** [def r(): f()] and [def f(): f()] *)
Definition recursive_src : ast :=
  Other [ FunctionDef "r" 1 [Other []; Other [Call (Name "f") []]];
          FunctionDef "f" 5 [Other []; Other [Call (Name "f") []]] ].

Definition recursive_cg : CallGraph :=
  build_call_graph [in_module_m recursive_src] no_exclude.

(** [def a(): b()] and [def b(): a()] *)
Definition mutual_src : ast :=
  Other [ FunctionDef "a" 1 [Other []; Other [Call (Name "b") []]];
          FunctionDef "b" 5 [Other []; Other [Call (Name "a") []]] ].

Definition mutual_cg : CallGraph :=
  build_call_graph [in_module_m mutual_src] no_exclude.

(** [def outer():] with [def inner(): pass] in its body *)
Definition inner_def : ast := FunctionDef "inner" 2 [Other []; Other []].

Definition outer_def : ast := FunctionDef "outer" 1 [Other []; inner_def].

Definition nested_src : ast := Other [outer_def].

(** A class [Foo] whose [m1] calls [self.m2()], next to a function [m2]
    of another module. *)
Definition method_src : ast :=
  Other [ ClassDef "Foo"
            [ FunctionDef "m1" 2
                [Other [Other []]; Other [Call (Attribute (Name "self") "m2") []]];
              FunctionDef "m2" 5 [Other [Other []]; Other []] ] ].

Definition other_src : ast :=
  Other [ FunctionDef "m2" 1 [Other []; Other []] ].

Definition other_file : SourceFile :=
  mkSourceFile (mkPath "pkg/n.py") "pkg/n.py" ["pkg"; "n"] (Parsed other_src).


(** [def a(): pass] in [lab.py], scanned from the root [/srv/proj]. *)
Definition lab_file : SourceFile :=
  mkSourceFile (mkPath "/srv/proj/lab.py") "lab.py" ["lab"]
               (Parsed (Other [FunctionDef "a" 1 [Other []; Other []]])).

(** [def f():] with another [def f(): pass] in its body. *)
Definition shadow_src : ast :=
  Other [FunctionDef "f" 1 [Other []; FunctionDef "f" 2 [Other []; Other []]]].

End Samples.

(* ------------------------------------------------------------------ *)
(** ** cli.main *)
(* ------------------------------------------------------------------ *)

(** The namespace returned by [ap.parse_args()]. *)
Record Args : Type := mkArgs {
  function : string;
  root : string;
  exclude : string;
  only : option string  (* None: the option is absent *)
}.

(** How a run of [main] ends: [re.compile] rejects a pattern, an
    exception escapes the build, or the printer has run, with what it
    printed and how it ended. *)
Inductive main_outcome : Type :=
| ReError
| Traceback (e : escaping)
| Ran (result : list string * (exn + unit)).

(** The truth value of [args.only]: [None] and the empty string are false. *)
Definition truthy (o : option string) : bool :=
  match o with
  | None => false
  | Some EmptyString => false
  | Some (String _ _) => true
  end.

Section Cli.

(** [re.compile], which raises [re.error] on a malformed pattern. *)
Variable re_compile : string -> option Pattern.

(** The file tree: what [pathlib.Path(root).rglob("*.py")] yields. *)
Variable rglob : string -> list yielded.

(** [main], after the arguments are parsed; [depth] as in [walk]. *)
Definition main (args : Args) (depth : nat) : main_outcome :=
  match re_compile (exclude args) with
  | None => ReError
  | Some rx =>
      match build_call_graph_or_raise (rglob (root args)) rx with
      | inl e => Traceback e
      | inr graph =>
          if truthy (only args) then
            match re_compile (match only args with Some p => p | None => EmptyString end) with
            | None => ReError
            | Some rx_only =>
                Ran (print_caller_tree (filtered graph rx_only) depth (function args) [])
            end
          else Ran (print_caller_tree graph depth (function args) [])
      end
  end.

End Cli.

(* ------------------------------------------------------------------ *)
(** ** More vocabulary *)
(* ------------------------------------------------------------------ *)

(** The exit status of the interpreter after [print_caller_tree]: 0
    after a return, the status of [sys.exit], and 1 after any other
    exception, which nothing catches. *)
Definition process_status (r : exn + unit) : Z :=
  match r with
  | inr _ => 0%Z
  | inl (SystemExit arg) => exit_status arg
  | inl _ => 1%Z
  end.

(** The line on which a function definition starts. *)
Definition def_lineno (d : ast) : option Z :=
  match d with
  | FunctionDef _ lineno _ => Some lineno
  | AsyncFunctionDef _ lineno _ => Some lineno
  | _ => None
  end.

(** [recorded_from files rx_exclude q d file line]: the definition [d], on
    line [line] of a scanned file with path [file], has the qualified
    name [q]. *)
Definition recorded_from (files : list SourceFile) (rx_exclude : Pattern)
    (q : string) (d : ast) (file : Path) (line : Z) : Prop :=
  exists f tree stack name,
    In f files /\ rx_exclude (rel f) = false /\ parsed f = Parsed tree /\
    encloses tree stack d /\ def_name d = Some name /\
    def_lineno d = Some line /\ file = path f /\
    q = qualname (PyStr.join "." (module_parts f)) stack name.

(** [calls fnode func]: somewhere below [fnode], nested definitions
    included, there is a call whose callee expression is [func]. *)
Definition calls (fnode func : ast) : Prop :=
  exists stack args, encloses fnode stack (Call func args).

(** [block_of cg indent k block]: the lines [block] begin with the line
    of node [k] at the indentation [indent]: the indentation, a connector
    and the label of [k]. *)
Definition block_of (cg : CallGraph) (indent k : string) (block : list string)
    : Prop :=
  exists connector text rest,
    (connector = "└── " \/ connector = "├── ") /\
    label cg k = inr text /\
    block = (indent ++ connector ++ text)%string :: rest.

(** Ascending order of strings, as [sorted] leaves them. *)
Definition ascending (l : list string) : Prop :=
  Sorted (fun a b => String.ltb b a = false) l.

(* ================================================================== *)
(** * Properties *)
(* ================================================================== *)

(** ** Induction on syntax trees *)

Section AstInduction.

Variable P : ast -> Prop.
Hypothesis P_fun : forall name lineno children,
    Forall P children -> P (FunctionDef name lineno children).
Hypothesis P_async : forall name lineno children,
    Forall P children -> P (AsyncFunctionDef name lineno children).
Hypothesis P_class : forall name children,
    Forall P children -> P (ClassDef name children).
Hypothesis P_call : forall func args,
    P func -> Forall P args -> P (Call func args).
Hypothesis P_name : forall id, P (Name id).
Hypothesis P_attr : forall value attr, P value -> P (Attribute value attr).
Hypothesis P_other : forall children, Forall P children -> P (Other children).

Fixpoint ast_ind (n : ast) : P n :=
  let all :=
    fix all (l : list ast) : Forall P l :=
      match l with
      | [] => Forall_nil P
      | x :: rest => Forall_cons x (ast_ind x) (all rest)
      end in
  match n with
  | FunctionDef name lineno children => P_fun name lineno (all children)
  | AsyncFunctionDef name lineno children => P_async name lineno (all children)
  | ClassDef name children => P_class name (all children)
  | Call func args => P_call (ast_ind func) (all args)
  | Name id => P_name id
  | Attribute value attr => P_attr attr (ast_ind value)
  | Other children => P_other (all children)
  end.

End AstInduction.

(** ** Strings *)

Module PyStrFacts.
Import PyStr.

Lemma mem_In : forall e l, mem e l = true <-> In e l.
Proof.
  intros e l; unfold mem; rewrite existsb_exists; split.
  - intros [x [Hx He]]; apply String.eqb_eq in He; subst; assumption.
  - intros H; exists e; split; [assumption | apply String.eqb_refl].
Qed.

Lemma mem_false : forall e l, mem e l = false <-> ~ In e l.
Proof.
  intros e l; rewrite <- mem_In; destruct (mem e l); split; congruence.
Qed.

Lemma split_not_nil : forall sep s, split sep s <> [].
Proof.
  intros sep s; destruct s as [|c rest]; simpl; [discriminate|].
  destruct (Ascii.eqb c sep); [discriminate|].
  destruct (split sep rest); discriminate.
Qed.

(** Joining the segments with the separator gives the string back. *)
Lemma join_split : forall s, join "." (split "." s) = s.
Proof.
  induction s as [|c rest IH]; [reflexivity|].
  simpl split; destruct (Ascii.eqb_spec c ".") as [->|Hc].
  - unfold join in *; simpl.
    destruct (split "." rest) eqn:E; [elim (split_not_nil _ _ E)|].
    rewrite IH; reflexivity.
  - unfold join in *.
    destruct (split "." rest) as [|seg segs] eqn:E; [elim (split_not_nil _ _ E)|].
    destruct segs; simpl in *; rewrite <- IH; reflexivity.
Qed.

(** No segment contains the separator. *)
Lemma split_dotless : forall s, Forall (fun seg => dotless seg = true) (split "." s).
Proof.
  induction s as [|c rest IH]; simpl split.
  - repeat constructor.
  - destruct (Ascii.eqb_spec c ".") as [->|Hc].
    + constructor; [reflexivity | assumption].
    + destruct (split "." rest) as [|seg segs]; constructor.
      * simpl; apply Ascii.eqb_neq in Hc; rewrite Hc; reflexivity.
      * constructor.
      * simpl; apply Ascii.eqb_neq in Hc; rewrite Hc; simpl.
        inversion IH; assumption.
      * inversion IH; assumption.
Qed.

Lemma length_append : forall a b,
    String.length (a ++ b) = String.length a + String.length b.
Proof. induction a; simpl; intros; [reflexivity | rewrite IHa; reflexivity]. Qed.

Lemma substring_all : forall s, substring 0 (String.length s) s = s.
Proof. induction s; simpl; [reflexivity | rewrite IHs; reflexivity]. Qed.

Lemma substring_skip : forall a b n,
    substring (String.length a) n (a ++ b) = substring 0 n b.
Proof. induction a; simpl; intros; [reflexivity | apply IHa]. Qed.

Lemma substring_cut : forall s k,
    k <= String.length s ->
    s = (substring 0 k s ++ substring k (String.length s - k) s)%string.
Proof.
  induction s as [|c rest IH]; intros k Hk.
  - simpl in Hk; assert (k = 0) by lia; subst; reflexivity.
  - destruct k as [|k].
    + simpl; rewrite substring_all; reflexivity.
    + simpl in *; rewrite <- IH by lia; reflexivity.
Qed.

(** [endswith] holds exactly of the strings that a prefix extends to. *)
Lemma endswith_spec : forall s suf,
    endswith s suf = true <-> exists p, s = (p ++ suf)%string.
Proof.
  intros s suf; unfold endswith; rewrite andb_true_iff, Nat.leb_le, String.eqb_eq.
  split.
  - intros [Hle Hsub].
    exists (substring 0 (String.length s - String.length suf) s).
    pose proof (substring_cut s (k := String.length s - String.length suf)) as Hcut.
    replace (String.length s - (String.length s - String.length suf))
      with (String.length suf) in Hcut by lia.
    rewrite Hsub in Hcut; apply Hcut; lia.
  - intros [p ->]; rewrite length_append; split; [lia|].
    replace (String.length p + String.length suf - String.length suf)
      with (String.length p) by lia.
    rewrite substring_skip; apply substring_all.
Qed.

Lemma last_item_snoc : forall (A : Type) (init : list A) (x : A),
    last_item (init ++ [x]) = inr x.
Proof. intros; unfold last_item; rewrite rev_unit; reflexivity. Qed.

(** [s.split(".")] always has a last item: a dotless segment that ends [s]. *)
Lemma split_last : forall s,
    exists init func,
      split "." s = init ++ [func] /\ dotless func = true /\
      s = join "." (init ++ [func]).
Proof.
  intros s.
  destruct (exists_last (split_not_nil "." s)) as [init [func E]].
  exists init, func; split; [assumption|]; split.
  - pose proof (split_dotless s) as H; rewrite E in H.
    apply Forall_app in H; destruct H as [_ H]; inversion H; assumption.
  - rewrite <- E; symmetry; apply join_split.
Qed.

(** [startswith] holds exactly of the strings that extend the prefix. *)
Lemma startswith_spec : forall p s,
    startswith s p = true <-> exists rest, s = (p ++ rest)%string.
Proof.
  unfold startswith; induction p as [|a p IH]; intros s.
  - split; [intros _; exists s; reflexivity | destruct s; reflexivity].
  - destruct s as [|b s]; simpl.
    + split; [discriminate | intros [rest H]; discriminate].
    + destruct (ascii_dec a b) as [->|Hne].
      * rewrite IH; split; intros [rest H]; exists rest; congruence.
      * split; [discriminate | intros [rest H]; congruence].
Qed.

Lemma append_assoc : forall a b c : string,
    ((a ++ b) ++ c = a ++ (b ++ c))%string.
Proof. induction a; simpl; intros; [reflexivity | rewrite IHa; reflexivity]. Qed.

Lemma join_snoc : forall sep init x,
    init <> [] -> join sep (init ++ [x]) = (join sep init ++ sep ++ x)%string.
Proof.
  unfold join; induction init as [|y rest IH]; intros x Hne; [congruence|].
  destruct rest as [|z rest]; [reflexivity|].
  change (String.concat sep ((y :: z :: rest) ++ [x]))
    with (y ++ sep ++ String.concat sep ((z :: rest) ++ [x]))%string.
  rewrite IH by discriminate.
  change (String.concat sep (y :: z :: rest))
    with (y ++ sep ++ String.concat sep (z :: rest))%string.
  rewrite !append_assoc; reflexivity.
Qed.

Lemma split_dotless_one : forall a, dotless a = true -> split "." a = [a].
Proof.
  induction a as [|c a IH]; simpl; intros H; [reflexivity|].
  apply andb_true_iff in H; destruct H as [Hc Ha].
  apply negb_true_iff in Hc; rewrite Hc, (IH Ha); reflexivity.
Qed.

Lemma split_append_dot : forall p a,
    split "." (p ++ "." ++ a) = split "." p ++ split "." a.
Proof.
  induction p as [|c p IH]; intros a; [reflexivity|].
  simpl; simpl in IH; rewrite IH.
  destruct (Ascii.eqb c "."); [reflexivity|].
  destruct (split "." p) eqn:E; [elim (split_not_nil _ _ E) | reflexivity].
Qed.

(** For a name without dots, [d.endswith("." + name)] says that [name]
    is the last of at least two dotted segments of [d]. *)
Lemma endswith_last_segment : forall d name,
    dotless name = true ->
    (endswith d ("." ++ name) = true <->
     exists init, init <> [] /\ split "." d = init ++ [name]).
Proof.
  intros d name Hname; rewrite endswith_spec; split.
  - intros [p ->]; exists (split "." p); split; [apply split_not_nil|].
    rewrite split_append_dot, (split_dotless_one _ Hname); reflexivity.
  - intros [init [Hne E]]; exists (join "." init).
    rewrite <- (join_split d), E; apply join_snoc; exact Hne.
Qed.

End PyStrFacts.

(** ** Dictionaries *)

Module DictFacts.
Import Dict.

Lemma mem_keys : forall V (d : t V) k, mem k d = PyStr.mem k (keys d).
Proof.
  intros V d k; unfold mem; induction d as [|[k' v] rest IH]; simpl; [reflexivity|].
  destruct (String.eqb k k'); [reflexivity | exact IH].
Qed.

Lemma mem_In_keys : forall V (d : t V) k, mem k d = true <-> In k (keys d).
Proof. intros; rewrite mem_keys; apply PyStrFacts.mem_In. Qed.

Lemma get_In : forall V (d : t V) k, In k (keys d) -> exists v, get d k = Some v.
Proof.
  intros V d k H; apply mem_In_keys in H; unfold mem in H.
  destruct (get d k) as [v|]; [exists v; reflexivity | discriminate].
Qed.

Lemma keys_set : forall V (d : t V) k v,
    keys (set d k v) = if PyStr.mem k (keys d) then keys d else keys d ++ [k].
Proof.
  intros V d k v; induction d as [|[k' v'] rest IH]; simpl; [reflexivity|].
  destruct (String.eqb k k') eqn:E; simpl; [reflexivity|].
  rewrite IH; destruct (PyStr.mem k (keys rest)); reflexivity.
Qed.

Lemma keys_restrict : forall V keep (d : t V),
    keys (restrict keep d) = filter keep (keys d).
Proof.
  intros V keep d; induction d as [|[k v] rest IH]; simpl; [reflexivity|].
  destruct (keep k); simpl; rewrite IH; reflexivity.
Qed.

Lemma get_restrict : forall V keep (d : t V) k,
    get (restrict keep d) k = if keep k then get d k else None.
Proof.
  intros V keep d k; induction d as [|[k' v] rest IH]; simpl.
  - destruct (keep k); reflexivity.
  - destruct (keep k') eqn:Ek'; simpl.
    + destruct (String.eqb_spec k k') as [->|Hne]; [rewrite Ek'; reflexivity | exact IH].
    + destruct (String.eqb_spec k k') as [->|Hne]; [rewrite IH, Ek'; reflexivity | exact IH].
Qed.

End DictFacts.

(** ** Graphs *)

Module DiGraphFacts.
Import DiGraph.

Lemma has_edge_In : forall g u v, has_edge g u v = true <-> In (u, v) (edges g).
Proof.
  intros g u v; unfold has_edge; rewrite existsb_exists; split.
  - intros [[a b] [Hin He]]; unfold edge_eqb in He; simpl in He.
    apply andb_true_iff in He; destruct He as [Ha Hb].
    apply String.eqb_eq in Ha, Hb; subst; assumption.
  - intros H; exists (u, v); split; [assumption|].
    unfold edge_eqb; simpl; rewrite !String.eqb_refl; reflexivity.
Qed.

Lemma nodes_add_node : forall g n,
    nodes (add_node g n) = if PyStr.mem n (nodes g) then nodes g else nodes g ++ [n].
Proof.
  intros g n; unfold add_node, has_node; destruct (PyStr.mem n (nodes g)); reflexivity.
Qed.

Lemma edges_add_node : forall g n, edges (add_node g n) = edges g.
Proof. intros g n; unfold add_node; destruct (has_node g n); reflexivity. Qed.

Lemma add_node_present : forall g n, In n (nodes g) -> add_node g n = g.
Proof.
  intros g n H; unfold add_node, has_node.
  apply PyStrFacts.mem_In in H; rewrite H; reflexivity.
Qed.

Lemma In_add_node : forall g n q,
    In q (nodes (add_node g n)) <-> In q (nodes g) \/ q = n.
Proof.
  intros g n q; rewrite nodes_add_node.
  destruct (PyStr.mem n (nodes g)) eqn:E.
  - apply PyStrFacts.mem_In in E; split; [tauto | intros [H| ->]; assumption].
  - rewrite in_app_iff; simpl; intuition.
Qed.

(** Linking two nodes that exist leaves the node list as it is. *)
Lemma nodes_add_edge : forall g u v,
    In u (nodes g) -> In v (nodes g) -> nodes (add_edge g u v) = nodes g.
Proof.
  intros g u v Hu Hv; unfold add_edge.
  rewrite (add_node_present g u Hu), (add_node_present g v Hv).
  destruct (has_edge g u v); reflexivity.
Qed.

Lemma In_edges_add_edge : forall g u v e,
    In e (edges (add_edge g u v)) <-> In e (edges g) \/ e = (u, v).
Proof.
  intros g u v e; unfold add_edge.
  destruct (has_edge (add_node (add_node g u) v) u v) eqn:E; simpl.
  - apply has_edge_In in E; rewrite !edges_add_node in *.
    split; [tauto | intros [H| ->]; assumption].
  - rewrite in_app_iff, !edges_add_node; simpl; intuition.
Qed.

End DiGraphFacts.

(** ** Reachability *)

Section Reachability.

Variable g : DiGraph.t.

Lemma successors_In : forall n x,
    In x (DiGraph.successors g n) <-> In (n, x) (DiGraph.edges g).
Proof.
  intros n x; unfold DiGraph.successors; rewrite in_map_iff; split.
  - intros [[a b] [Hb Hin]]; apply filter_In in Hin; destruct Hin as [Hin Ha].
    simpl in *; apply String.eqb_eq in Ha; subst; exact Hin.
  - intros H; exists (n, x); split; [reflexivity|].
    apply filter_In; split; [exact H | apply String.eqb_refl].
Qed.

Lemma add_unseen_spec : forall l acc,
    let r := fold_left (fun acc' s => if PyStr.mem s acc' then acc' else acc' ++ [s])
                       l acc in
    (forall x, In x r <-> In x acc \/ In x l) /\
    (NoDup acc -> NoDup r) /\
    exists extra, r = acc ++ extra.
Proof.
  induction l as [|a l IH]; intros acc; simpl.
  - split; [tauto|]; split; [auto|]; exists []; rewrite app_nil_r; reflexivity.
  - destruct (PyStr.mem a acc) eqn:E.
    + destruct (IH acc) as (Hin & Hnd & Hex).
      apply PyStrFacts.mem_In in E.
      split; [|split; assumption].
      intros x; rewrite Hin; split; [tauto|].
      intros [H | [<- | H]]; tauto.
    + destruct (IH (acc ++ [a])) as (Hin & Hnd & [extra Hex]).
      apply PyStrFacts.mem_false in E.
      split; [|split].
      * intros x; rewrite Hin, in_app_iff; simpl; tauto.
      * intros Hacc; apply Hnd.
        apply NoDup_app; [exact Hacc | repeat constructor; intros [] |].
        intros y Hy [<- | []]; exact (E Hy).
      * exists (a :: extra); rewrite Hex, <- app_assoc; reflexivity.
Qed.

Lemma expand_from_spec : forall l acc,
    let r := fold_left
               (fun acc n =>
                  fold_left
                    (fun acc' s => if PyStr.mem s acc' then acc' else acc' ++ [s])
                    (DiGraph.successors g n) acc)
               l acc in
    (forall x, In x r <->
               In x acc \/ exists n, In n l /\ In (n, x) (DiGraph.edges g)) /\
    (NoDup acc -> NoDup r) /\
    exists extra, r = acc ++ extra.
Proof.
  induction l as [|n rest IH]; intros acc; simpl.
  - split; [|split; [auto | exists []; rewrite app_nil_r; reflexivity]].
    intros x; split; [tauto | intros [H | [n [[] _]]]; exact H].
  - destruct (add_unseen_spec (DiGraph.successors g n) acc) as (Hin & Hnd & [e1 He1]).
    cbv zeta in Hin, Hnd, He1.
    destruct (IH (fold_left
                    (fun acc' s => if PyStr.mem s acc' then acc' else acc' ++ [s])
                    (DiGraph.successors g n) acc)) as (Hin' & Hnd' & [e2 He2]).
    split; [|split].
    + intros x; rewrite Hin', Hin, successors_In; split.
      * intros [[H | H] | [m [Hm H]]]; eauto.
      * intros [H | [m [[<- | Hm] H]]]; eauto.
    + intros Hacc; apply Hnd', Hnd, Hacc.
    + exists (e1 ++ e2); rewrite He2, He1, <- app_assoc; reflexivity.
Qed.

Lemma expand_spec : forall seen,
    (forall x, In x (DiGraph.expand g seen) <->
               In x seen \/ exists n, In n seen /\ In (n, x) (DiGraph.edges g)) /\
    (NoDup seen -> NoDup (DiGraph.expand g seen)) /\
    exists extra, DiGraph.expand g seen = seen ++ extra.
Proof. intros seen; exact (expand_from_spec seen seen). Qed.

Variable source : string.

Let seen_after (k : nat) : list string := Nat.iter k (DiGraph.expand g) [source].

Lemma reaches_snoc : forall u v w,
    reaches g u v -> In (v, w) (DiGraph.edges g) -> reaches g u w.
Proof.
  intros u v w H; induction H as [n | a b c Hab Hbc IH]; intros Hw.
  - eapply reaches_step; [exact Hw | constructor].
  - eapply reaches_step; [exact Hab | apply IH, Hw].
Qed.

Lemma seen_reachable : forall k x, In x (seen_after k) -> reaches g source x.
Proof.
  induction k as [|k IH]; intros x Hx.
  - destruct Hx as [<- | []]; constructor.
  - unfold seen_after in Hx; simpl in Hx.
    apply (proj1 (expand_spec _)) in Hx; destruct Hx as [Hx | [n [Hn He]]].
    + apply IH, Hx.
    + eapply reaches_snoc; [apply IH, Hn | exact He].
Qed.

Lemma seen_source : forall k, In source (seen_after k).
Proof.
  induction k as [|k IH]; [left; reflexivity|].
  unfold seen_after; simpl; apply (proj1 (expand_spec _)); left; exact IH.
Qed.

Lemma seen_NoDup : forall k, NoDup (seen_after k).
Proof.
  induction k as [|k IH]; [repeat constructor; intros []|].
  unfold seen_after; simpl; apply (proj1 (proj2 (expand_spec _))), IH.
Qed.

Lemma seen_nodes : closed g -> In source (DiGraph.nodes g) ->
                   forall k x, In x (seen_after k) -> In x (DiGraph.nodes g).
Proof.
  intros Hc Hs; induction k as [|k IH]; intros x Hx.
  - destruct Hx as [<- | []]; exact Hs.
  - unfold seen_after in Hx; simpl in Hx.
    apply (proj1 (expand_spec _)) in Hx; destruct Hx as [Hx | [n [Hn He]]].
    + apply IH, Hx.
    + apply (Hc n x He).
Qed.

(** Each round adds a node, unless the nodes seen are closed under
    succession already. *)
Lemma seen_grows_or_stops : forall n,
    (exists k, k < n /\ DiGraph.expand g (seen_after k) = seen_after k) \/
    n + 1 <= List.length (seen_after n).
Proof.
  induction n as [|n [[k [Hk Hst]] | Hlen]].
  - right; simpl; lia.
  - left; exists k; split; [lia | exact Hst].
  - destruct (proj2 (proj2 (expand_spec (seen_after n)))) as [[|e extra] He].
    + left; exists n; split; [lia|]; rewrite He, app_nil_r; reflexivity.
    + right; unfold seen_after in *; simpl; rewrite He, length_app; simpl; lia.
Qed.

Lemma seen_stays : forall k,
    DiGraph.expand g (seen_after k) = seen_after k ->
    forall j, seen_after (j + k) = seen_after k.
Proof.
  intros k Hst; induction j as [|j IH]; [reflexivity|].
  unfold seen_after in *; simpl; rewrite IH; exact Hst.
Qed.

Lemma stable_contains_reachable : forall seen,
    DiGraph.expand g seen = seen ->
    forall u w, reaches g u w -> In u seen -> In w seen.
Proof.
  intros seen Hst u w H; induction H as [n | a b c Hab Hbc IH]; intros Hin.
  - exact Hin.
  - apply IH; rewrite <- Hst; apply (proj1 (expand_spec _)); right.
    exists a; split; assumption.
Qed.

(** [has_path] decides reachability in a graph without dangling edges. *)
Lemma has_path_reaches : closed g -> In source (DiGraph.nodes g) ->
    forall target, DiGraph.has_path g source target = true <-> reaches g source target.
Proof.
  intros Hc Hs target; unfold DiGraph.has_path; rewrite PyStrFacts.mem_In.
  fold (seen_after (List.length (DiGraph.nodes g))); split.
  - apply seen_reachable.
  - intros Hr.
    destruct (seen_grows_or_stops (List.length (DiGraph.nodes g)))
      as [[k [Hk Hst]] | Hlen].
    + replace (List.length (DiGraph.nodes g))
        with ((List.length (DiGraph.nodes g) - k) + k) by lia.
      rewrite (seen_stays k Hst).
      apply (@stable_contains_reachable _ Hst source target Hr), seen_source.
    + assert (Hle : List.length (seen_after (List.length (DiGraph.nodes g)))
                    <= List.length (DiGraph.nodes g)).
      { apply NoDup_incl_length; [apply seen_NoDup|].
        intros x Hx; apply (@seen_nodes Hc Hs _ _ Hx). }
      lia.
Qed.

End Reachability.

(** ** The traversal of [ast.walk] *)

Lemma size_children : forall n, size n = S (sizes (iter_child_nodes n)).
Proof. destruct n; unfold sizes; simpl; lia. Qed.

Lemma sizes_app : forall l1 l2, sizes (l1 ++ l2) = sizes l1 + sizes l2.
Proof. intros; unfold sizes; rewrite map_app, list_sum_app; reflexivity. Qed.

(** Once the bound covers every queued tree, the loop of [ast.walk] stops
    because the queue is empty: a larger bound changes nothing. *)
Lemma walk_queue_enough : forall steps todo,
    sizes todo <= steps -> walk_queue steps todo = walk_queue (sizes todo) todo.
Proof.
  induction steps as [|k IH]; intros todo Hle.
  - replace (sizes todo) with 0 by lia; reflexivity.
  - destruct todo as [|n rest]; [reflexivity|].
    change (sizes (n :: rest)) with (size n + sizes rest) in *.
    rewrite size_children in *; simpl.
    rewrite IH by (rewrite sizes_app; lia).
    rewrite sizes_app; do 2 f_equal; lia.
Qed.

Lemma ast_walk_steps : forall node extra,
    walk_queue (size node + extra) [node] = ast_walk node.
Proof.
  intros node extra; unfold ast_walk.
  rewrite walk_queue_enough by (unfold sizes; simpl; lia).
  unfold sizes; simpl; rewrite Nat.add_0_r; reflexivity.
Qed.

(** ** The collector *)

Section CollectFacts.

Variable module : string.
Variable file_path : Path.

Local Abbreviation visit' := (visit module file_path).
Local Abbreviation generic_visit' := (generic_visit module file_path).
Local Abbreviation register' := (register module file_path).

Lemma visit_eq : forall node c,
    visit' node c =
    match node with
    | ClassDef name children =>
        cls_pop (generic_visit' children (cls_append c name))
    | FunctionDef name lineno children =>
        generic_visit' children (register' c name lineno node)
    | AsyncFunctionDef name lineno children =>
        generic_visit' children (register' c name lineno node)
    | Call func args => generic_visit' args (visit' func c)
    | Name _ => c
    | Attribute value _ => visit' value c
    | Other children => generic_visit' children c
    end.
Proof. destruct node; reflexivity. Qed.

Lemma generic_visit_app : forall l1 l2 c,
    generic_visit' (l1 ++ l2) c = generic_visit' l2 (generic_visit' l1 c).
Proof. intros; unfold generic_visit; apply fold_left_app. Qed.

Lemma generic_visit_all : forall (Q : Collector -> Prop) children,
    Forall (fun n => forall c, Q c -> Q (visit' n c)) children ->
    forall c, Q c -> Q (generic_visit' children c).
Proof.
  intros Q children H; induction H as [|n rest Hn _ IH]; intros c Hc.
  - exact Hc.
  - apply IH, Hn, Hc.
Qed.

(** Whatever a visit pushes on the class stack, it pops again. *)
Lemma visit_cls : forall node c, cls (visit' node c) = cls c.
Proof.
  assert (G : forall children,
             Forall (fun n => forall c, cls (visit' n c) = cls c) children ->
             forall c, cls (generic_visit' children c) = cls c).
  { intros children H; induction H as [|n rest Hn _ IH]; intros c.
    - reflexivity.
    - change (generic_visit' (n :: rest) c)
        with (generic_visit' rest (visit' n c)).
      rewrite IH; apply Hn. }
  induction node using ast_ind; intros c; rewrite visit_eq.
  - rewrite G by assumption; reflexivity.
  - rewrite G by assumption; reflexivity.
  - simpl; rewrite G by assumption; simpl; apply removelast_last.
  - rewrite G by assumption; apply IHnode.
  - reflexivity.
  - apply IHnode.
  - apply G; assumption.
Qed.

Lemma generic_visit_cls : forall children c,
    cls (generic_visit' children c) = cls c.
Proof.
  intros children c.
  apply (generic_visit_all (fun c' => cls c' = cls c)); [|reflexivity].
  apply Forall_forall; intros n _ c' Hc'; rewrite visit_cls; exact Hc'.
Qed.

Section EnvInvariant.

Variable Inv : Build -> Prop.
Hypothesis Inv_register : forall c name lineno node,
    Inv (env c) -> Inv (env (register' c name lineno node)).

(** A property of the filled structures that every [_add] keeps is kept
    by a whole visit. *)
Lemma visit_env_invariant : forall node c,
    Inv (env c) -> Inv (env (visit' node c)).
Proof.
  assert (G : forall children,
             Forall (fun n => forall c, Inv (env c) -> Inv (env (visit' n c)))
                    children ->
             forall c, Inv (env c) -> Inv (env (generic_visit' children c))).
  { intros children H.
    apply (generic_visit_all (fun c => Inv (env c))); exact H. }
  induction node using ast_ind; intros c Hc; rewrite visit_eq.
  - apply G; [assumption | apply Inv_register, Hc].
  - apply G; [assumption | apply Inv_register, Hc].
  - simpl; apply G; [assumption | exact Hc].
  - apply G; [assumption | apply IHnode, Hc].
  - exact Hc.
  - apply IHnode, Hc.
  - apply G; assumption.
Qed.

Lemma generic_visit_env_invariant : forall children c,
    Inv (env c) -> Inv (env (generic_visit' children c)).
Proof.
  intros children c.
  apply (generic_visit_all (fun c => Inv (env c))).
  apply Forall_forall; intros n _; apply visit_env_invariant.
Qed.

End EnvInvariant.

Lemma register_adds : forall c name lineno node,
    In (qualname module (cls c) name)
       (DiGraph.nodes (b_graph (env (register' c name lineno node)))).
Proof.
  intros; simpl; apply DiGraphFacts.In_add_node; right; reflexivity.
Qed.

Lemma register_keeps : forall q c name lineno node,
    In q (DiGraph.nodes (b_graph (env c))) ->
    In q (DiGraph.nodes (b_graph (env (register' c name lineno node)))).
Proof.
  intros; simpl; apply DiGraphFacts.In_add_node; left; assumption.
Qed.

Lemma register_consistent : forall c name lineno node,
    consistent (env c) -> consistent (env (register' c name lineno node)).
Proof.
  intros c name lineno node (Hn & Hs & Hl); unfold consistent; simpl.
  rewrite DiGraphFacts.nodes_add_node, !DictFacts.keys_set, Hn, Hs, Hl.
  destruct (PyStr.mem _ (Dict.keys (defs (env c)))); auto.
Qed.

(** Nodes are only ever added. *)
Lemma visit_keeps : forall q node c,
    In q (DiGraph.nodes (b_graph (env c))) ->
    In q (DiGraph.nodes (b_graph (env (visit' node c)))).
Proof.
  intros q.
  apply (visit_env_invariant (fun b => In q (DiGraph.nodes (b_graph b)))).
  intros; apply register_keeps; assumption.
Qed.

Lemma generic_visit_keeps : forall q children c,
    In q (DiGraph.nodes (b_graph (env c))) ->
    In q (DiGraph.nodes (b_graph (env (generic_visit' children c)))).
Proof.
  intros q.
  apply (generic_visit_env_invariant (fun b => In q (DiGraph.nodes (b_graph b)))).
  intros; apply register_keeps; assumption.
Qed.

Lemma visit_consistent : forall node c,
    consistent (env c) -> consistent (env (visit' node c)).
Proof.
  apply (visit_env_invariant consistent).
  intros; apply register_consistent; assumption.
Qed.

(** What a visit of some child registers is registered by the visit of
    all children. *)
Lemma generic_visit_child : forall q stack child children,
    In child children ->
    (forall c, cls c = stack ->
               In q (DiGraph.nodes (b_graph (env (visit' child c))))) ->
    forall c, cls c = stack ->
              In q (DiGraph.nodes (b_graph (env (generic_visit' children c)))).
Proof.
  intros q stack child children Hin Hchild c Hc.
  apply in_split in Hin; destruct Hin as [l1 [l2 ->]].
  rewrite generic_visit_app.
  change (generic_visit' (child :: l2) (generic_visit' l1 c))
    with (generic_visit' l2 (visit' child (generic_visit' l1 c))).
  apply generic_visit_keeps, Hchild.
  rewrite generic_visit_cls; exact Hc.
Qed.

(** A node that is not a class definition hands its children the class
    stack it was visited with. *)
Lemma visit_children : forall node c,
    (forall name children, node <> ClassDef name children) ->
    exists c', cls c' = cls c /\
               visit' node c = generic_visit' (iter_child_nodes node) c'.
Proof.
  intros node c Hnc; destruct node; rewrite visit_eq; simpl.
  - eexists; split; [|reflexivity]; reflexivity.
  - eexists; split; [|reflexivity]; reflexivity.
  - elim (Hnc name children); reflexivity.
  - exists c; split; reflexivity.
  - exists c; split; reflexivity.
  - exists c; split; reflexivity.
  - exists c; split; reflexivity.
Qed.

(** Every function definition inside a visited tree is registered under
    the module, the classes around it and its own name. *)
Lemma visit_registers : forall tree stack d,
    encloses tree stack d ->
    forall name, def_name d = Some name ->
    forall c,
      In (qualname module (cls c ++ stack) name)
         (DiGraph.nodes (b_graph (env (visit' tree c)))).
Proof.
  intros tree stack d H; induction H as
      [d | cname children child stack d Hin Henc IH
         | n child stack d Hnc Hin Henc IH];
    intros name Hd c.
  - rewrite app_nil_r.
    destruct d; simpl in Hd; try discriminate; inversion Hd; subst;
      rewrite visit_eq; apply generic_visit_keeps, register_adds.
  - rewrite visit_eq; simpl.
    apply generic_visit_child with (stack := cls c ++ [cname]) (child := child);
      [exact Hin | | reflexivity].
    intros c' Hc'.
    replace (cls c ++ cname :: stack) with (cls c' ++ stack)
      by (rewrite Hc', <- app_assoc; reflexivity).
    apply (IH name Hd).
  - destruct (visit_children c Hnc) as [c' [Hcls ->]].
    apply generic_visit_child with (stack := cls c) (child := child);
      [exact Hin | | exact Hcls].
    intros c'' Hc''; rewrite <- Hc''.
    apply (IH name Hd).
Qed.

(** [origin tree stack0 q]: [q] names a function definition of [tree],
    visited under the class stack [stack0]. *)
Let origin (tree : ast) (stack0 : list string) (q : string) : Prop :=
  exists stack d name,
    encloses tree stack d /\ def_name d = Some name /\
    q = qualname module (stack0 ++ stack) name.

Lemma generic_visit_origin : forall children,
    Forall (fun n => forall c q,
                In q (DiGraph.nodes (b_graph (env (visit' n c)))) ->
                In q (DiGraph.nodes (b_graph (env c))) \/ origin n (cls c) q)
           children ->
    forall c q,
      In q (DiGraph.nodes (b_graph (env (generic_visit' children c)))) ->
      In q (DiGraph.nodes (b_graph (env c))) \/
      exists child, In child children /\ origin child (cls c) q.
Proof.
  intros children H; induction H as [|n rest Hn _ IH]; intros c q Hq.
  - left; exact Hq.
  - change (generic_visit' (n :: rest) c)
      with (generic_visit' rest (visit' n c)) in Hq.
    apply IH in Hq; rewrite visit_cls in Hq.
    destruct Hq as [Hq | [child [Hin Ho]]].
    + apply Hn in Hq; destruct Hq as [Hq | Ho]; [left; exact Hq|].
      right; exists n; split; [left; reflexivity | exact Ho].
    + right; exists child; split; [right; exact Hin | exact Ho].
Qed.

(** Conversely, a visit registers nothing but the function definitions
    of the tree. *)
Lemma visit_origin : forall tree c q,
    In q (DiGraph.nodes (b_graph (env (visit' tree c)))) ->
    In q (DiGraph.nodes (b_graph (env c))) \/ origin tree (cls c) q.
Proof.
  assert (Up : forall n child stack0 q,
             (forall name children, n <> ClassDef name children) ->
             In child (iter_child_nodes n) ->
             origin child stack0 q -> origin n stack0 q).
  { intros n child stack0 q Hnc Hin (stack & d & name & He & Hd & ->).
    exists stack, d, name; repeat split; try assumption.
    eapply enc_child; eassumption. }
  assert (Here : forall d name stack0,
             def_name d = Some name ->
             origin d stack0 (qualname module stack0 name)).
  { intros d name stack0 Hd; exists [], d, name; repeat split.
    - constructor.
    - exact Hd.
    - rewrite app_nil_r; reflexivity. }
  induction tree using ast_ind; intros c q Hq; rewrite visit_eq in Hq.
  - apply generic_visit_origin in Hq; [|assumption].
    destruct Hq as [Hq | [child [Hin Ho]]].
    + simpl in Hq; apply DiGraphFacts.In_add_node in Hq.
      destruct Hq as [Hq | ->]; [left; exact Hq | right].
      apply Here; reflexivity.
    + right; apply (Up _ child); [discriminate | exact Hin | exact Ho].
  - apply generic_visit_origin in Hq; [|assumption].
    destruct Hq as [Hq | [child [Hin Ho]]].
    + simpl in Hq; apply DiGraphFacts.In_add_node in Hq.
      destruct Hq as [Hq | ->]; [left; exact Hq | right].
      apply Here; reflexivity.
    + right; apply (Up _ child); [discriminate | exact Hin | exact Ho].
  - simpl in Hq; apply generic_visit_origin in Hq; [|assumption].
    destruct Hq as [Hq | [child [Hin Ho]]]; [left; exact Hq | right].
    simpl in Ho; destruct Ho as (stack & d & dname & He & Hd & ->).
    exists (name :: stack), d, dname; repeat split.
    + eapply enc_class; eassumption.
    + exact Hd.
    + rewrite <- app_assoc; reflexivity.
  - apply generic_visit_origin in Hq; [|assumption].
    rewrite visit_cls in Hq.
    destruct Hq as [Hq | [child [Hin Ho]]].
    + apply IHtree in Hq; destruct Hq as [Hq | Ho]; [left; exact Hq | right].
      apply (Up _ tree); [discriminate | left; reflexivity | exact Ho].
    + right; apply (Up _ child); [discriminate | right; exact Hin | exact Ho].
  - left; exact Hq.
  - apply IHtree in Hq; destruct Hq as [Hq | Ho]; [left; exact Hq | right].
    apply (Up _ tree); [discriminate | left; reflexivity | exact Ho].
  - apply generic_visit_origin in Hq; [|assumption].
    destruct Hq as [Hq | [child [Hin Ho]]]; [left; exact Hq | right].
    apply (Up _ child); [discriminate | exact Hin | exact Ho].
Qed.

End CollectFacts.

(** ** The two passes of [build_call_graph] *)

Lemma fold_left_invariant : forall (A B : Type) (Q : A -> Prop) (f : A -> B -> A) l,
    (forall a b, In b l -> Q a -> Q (f a b)) ->
    forall a, Q a -> Q (fold_left f l a).
Proof.
  intros A B Q f l; induction l as [|b rest IH]; intros Hf a Ha; simpl.
  - exact Ha.
  - apply IH; [intros; apply Hf; [right|]; assumption |].
    apply Hf; [left; reflexivity | exact Ha].
Qed.

Lemma collect_file_consistent : forall rx b f,
    consistent b -> consistent (collect_file rx b f).
Proof.
  intros rx b f Hb; unfold collect_file.
  destruct (rx (rel f)); [exact Hb|].
  destruct (parsed f); [exact Hb|].
  apply visit_consistent; exact Hb.
Qed.

Lemma collect_consistent : forall files rx, consistent (collect files rx).
Proof.
  intros files rx; unfold collect.
  apply fold_left_invariant.
  - intros; apply collect_file_consistent; assumption.
  - repeat split.
Qed.

Lemma trailing_matches_spec : forall defs name d,
    In d (trailing_matches defs name) <->
    In d (Dict.keys defs) /\ exists p, d = (p ++ "." ++ name)%string.
Proof.
  intros defs name d; unfold trailing_matches.
  rewrite filter_In, PyStrFacts.endswith_spec; reflexivity.
Qed.

Lemma callee_candidates_known : forall defs caller_prefix func d,
    In d (callee_candidates defs caller_prefix func) -> In d (Dict.keys defs).
Proof.
  intros defs caller_prefix func d; destruct func; simpl; try tauto.
  - intros H; apply trailing_matches_spec in H; tauto.
  - destruct func; try (intros H; apply trailing_matches_spec in H; tauto).
    destruct (is_self_or_cls id);
      [| intros H; apply trailing_matches_spec in H; tauto].
    destruct (Dict.mem _ defs) eqn:E;
      [| intros H; apply trailing_matches_spec in H; tauto].
    intros [<- | []]; apply DictFacts.mem_In_keys; exact E.
Qed.

Lemma surviving_spec : forall caller_prefix candidates,
    surviving caller_prefix candidates =
    if existsb (fun c => PyStr.startswith c caller_prefix) candidates
    then filter (fun c => PyStr.startswith c caller_prefix) candidates
    else candidates.
Proof.
  intros caller_prefix candidates; unfold surviving.
  destruct (existsb _ candidates) eqn:E.
  - apply existsb_exists in E; destruct E as [x [Hx Hp]].
    destruct (filter _ candidates) eqn:F; [|reflexivity].
    assert (Hin : In x []) by (rewrite <- F; apply filter_In; auto).
    destruct Hin.
  - destruct (filter _ candidates) as [|y l] eqn:F; [reflexivity|].
    assert (Hy : In y (y :: l)) by (left; reflexivity).
    rewrite <- F in Hy; apply filter_In in Hy; destruct Hy as [Hy Hp].
    assert (existsb (fun c => PyStr.startswith c caller_prefix) candidates = true)
      by (apply existsb_exists; eauto).
    congruence.
Qed.

Lemma surviving_incl : forall caller_prefix candidates d,
    In d (surviving caller_prefix candidates) -> In d candidates.
Proof.
  intros caller_prefix candidates d; rewrite surviving_spec.
  destruct (existsb _ candidates); [|tauto].
  intros H; apply filter_In in H; tauto.
Qed.

(** The edges after adding one edge per target. *)
Lemma In_edges_add_all : forall caller targets g e,
    In e (DiGraph.edges
            (fold_left (fun g callee => DiGraph.add_edge g caller callee) targets g))
    <-> In e (DiGraph.edges g) \/ exists callee, In callee targets /\ e = (caller, callee).
Proof.
  intros caller targets; induction targets as [|t rest IH]; intros g e; simpl.
  - split; [tauto | intros [H | [x [[] _]]]; exact H].
  - rewrite IH, DiGraphFacts.In_edges_add_edge; split.
    + intros [[H | ->] | [x [Hx ->]]]; eauto.
    + intros [H | [x [[<- | Hx] ->]]]; eauto.
Qed.

Lemma In_edges_link : forall g caller caller_prefix candidates e,
    In e (DiGraph.edges (link g caller caller_prefix candidates))
    <-> In e (DiGraph.edges g) \/
        exists callee, In callee (surviving caller_prefix candidates) /\
                       e = (caller, callee).
Proof.
  intros g caller caller_prefix candidates e; unfold link.
  destruct candidates as [|c rest].
  - split; [tauto | intros [H | [x [[] _]]]; exact H].
  - apply In_edges_add_all.
Qed.

Lemma nodes_link : forall g caller caller_prefix candidates,
    In caller (DiGraph.nodes g) ->
    (forall d, In d candidates -> In d (DiGraph.nodes g)) ->
    DiGraph.nodes (link g caller caller_prefix candidates) = DiGraph.nodes g.
Proof.
  intros g caller caller_prefix candidates Hc Hd; unfold link.
  destruct candidates as [|c0 rest]; [reflexivity|].
  assert (Ht : forall d, In d (surviving caller_prefix (c0 :: rest)) ->
                         In d (DiGraph.nodes g))
    by (intros d H; apply Hd, (surviving_incl _ _ _ H)).
  revert Ht; generalize (surviving caller_prefix (c0 :: rest)) as targets.
  intros targets; revert g Hc Hd; induction targets as [|t ts IH]; intros g Hc Hd Ht.
  - reflexivity.
  - simpl.
    assert (E : DiGraph.nodes (DiGraph.add_edge g caller t) = DiGraph.nodes g)
      by (apply DiGraphFacts.nodes_add_edge; [exact Hc | apply Ht; left; reflexivity]).
    rewrite IH; rewrite ?E; auto.
    intros d H; apply Ht; right; exact H.
Qed.

(** Resolving the calls of known definitions against known definitions
    neither changes the node list nor lets an edge dangle. *)
Lemma resolve_node_closed : forall defs caller g n,
    In caller (Dict.keys defs) ->
    DiGraph.nodes g = Dict.keys defs -> closed g ->
    DiGraph.nodes (resolve_node defs caller g n) = Dict.keys defs /\
    closed (resolve_node defs caller g n).
Proof.
  intros defs caller g n Hcaller Hn Hclosed.
  destruct n; try (split; assumption).
  unfold resolve_node.
  set (prefix := caller_prefix_of caller).
  set (cands := callee_candidates defs prefix n).
  assert (Hk : forall d, In d cands -> In d (DiGraph.nodes g))
    by (intros d H; rewrite Hn; apply (callee_candidates_known _ _ _ _ H)).
  assert (En : DiGraph.nodes (link g caller prefix cands) = DiGraph.nodes g)
    by (apply nodes_link; [rewrite Hn; exact Hcaller | exact Hk]).
  split; [rewrite En; exact Hn|].
  intros u v H; rewrite En.
  apply In_edges_link in H; destruct H as [H | [callee [Hc H]]].
  - apply Hclosed; exact H.
  - inversion H; subst; split; [rewrite Hn; exact Hcaller|].
    apply Hk, (surviving_incl _ _ _ Hc).
Qed.

Lemma add_edges_closed : forall defs g,
    DiGraph.nodes g = Dict.keys defs -> closed g ->
    DiGraph.nodes (add_edges defs g) = Dict.keys defs /\ closed (add_edges defs g).
Proof.
  intros defs g Hn Hc; unfold add_edges.
  apply (fold_left_invariant
           (fun g => DiGraph.nodes g = Dict.keys defs /\ closed g)); [|auto].
  intros g' [caller fnode] Hin [Hn' Hc']; unfold resolve_def; simpl.
  apply (fold_left_invariant
           (fun g => DiGraph.nodes g = Dict.keys defs /\ closed g)); [|auto].
  intros g'' n _ [Hn'' Hc'']; apply resolve_node_closed; auto.
  apply (in_map fst) in Hin; exact Hin.
Qed.

Lemma collect_closed : forall files rx,
    DiGraph.edges (b_graph (collect files rx)) = [].
Proof.
  intros files rx; unfold collect.
  apply (fold_left_invariant (fun b => DiGraph.edges (b_graph b) = []));
    [|reflexivity].
  intros b f _ Hb; unfold collect_file.
  destruct (rx (rel f)); [exact Hb|]; destruct (parsed f); [exact Hb|].
  apply visit_env_invariant with (Inv := fun b => DiGraph.edges (b_graph b) = []);
    [|exact Hb].
  intros c name lineno node H; simpl; rewrite DiGraphFacts.edges_add_node; exact H.
Qed.

Lemma discovered_cons : forall f files rx q,
    discovered (f :: files) rx q <-> discovered [f] rx q \/ discovered files rx q.
Proof.
  intros f files rx q; unfold discovered; split.
  - intros (f' & tree & stack & d & name & [E | Hin] & H);
      [left | right]; exists f', tree, stack, d, name; simpl; tauto.
  - intros [(f' & tree & stack & d & name & [E | []] & H)
           | (f' & tree & stack & d & name & Hin & H)];
      exists f', tree, stack, d, name; simpl; tauto.
Qed.

Lemma collect_file_nodes : forall rx b f q,
    In q (DiGraph.nodes (b_graph (collect_file rx b f))) <->
    In q (DiGraph.nodes (b_graph b)) \/ discovered [f] rx q.
Proof.
  intros rx b f q; unfold collect_file; split.
  - destruct (rx (rel f)) eqn:Erx; [tauto|].
    destruct (parsed f) as [|tree] eqn:Ep; [tauto|].
    intros H; apply visit_origin in H; simpl in H.
    destruct H as [H | (stack & d & name & He & Hd & ->)]; [left; exact H | right].
    exists f, tree, stack, d, name; simpl; tauto.
  - intros [H | (f' & tree & stack & d & name & [E | []] & Erx & Ep & He & Hd & ->)];
      [| subst f'].
    + destruct (rx (rel f)); [exact H|].
      destruct (parsed f); [exact H|].
      apply visit_keeps; exact H.
    + rewrite Erx, Ep.
      apply (visit_registers (PyStr.join "." (module_parts f)) (path f) He Hd
                             (mkCollector [] b)).
Qed.

(** The nodes after the first pass are the discovered definitions. *)
Lemma collect_nodes : forall files rx q,
    In q (DiGraph.nodes (b_graph (collect files rx))) <-> discovered files rx q.
Proof.
  intros files rx q; unfold collect.
  assert (G : forall b,
             In q (DiGraph.nodes (b_graph (fold_left (collect_file rx) files b)))
             <-> In q (DiGraph.nodes (b_graph b)) \/ discovered files rx q).
  { induction files as [|f rest IH]; intros b; simpl.
    - split; [tauto | intros [H | (f & t & s & d & n & [] & _)]; exact H].
    - rewrite IH, collect_file_nodes, (discovered_cons f rest); tauto. }
  rewrite G; unfold Build_empty; simpl; tauto.
Qed.

Lemma build_nodes : forall files rx,
    DiGraph.nodes (graph (build_call_graph files rx)) =
    Dict.keys (defs (collect files rx)) /\
    closed (graph (build_call_graph files rx)).
Proof.
  intros files rx; unfold build_call_graph; simpl.
  destruct (collect_consistent files rx) as (Hn & _ & _).
  apply add_edges_closed; [exact Hn|].
  intros u v H; rewrite collect_closed in H; destruct H.
Qed.

Lemma encloses_trans : forall a s1 b,
    encloses a s1 b -> forall s2 c, encloses b s2 c -> encloses a (s1 ++ s2) c.
Proof.
  intros a s1 b H; induction H; intros s2 c Hc; simpl.
  - exact Hc.
  - eapply enc_class; eauto.
  - eapply enc_child; eauto.
Qed.

(** ** No multiplicity *)

Lemma add_node_NoDup : forall g n,
    NoDup (DiGraph.nodes g) -> NoDup (DiGraph.nodes (DiGraph.add_node g n)).
Proof.
  intros g n H; rewrite DiGraphFacts.nodes_add_node.
  destruct (PyStr.mem n (DiGraph.nodes g)) eqn:E; [exact H|].
  apply PyStrFacts.mem_false in E.
  apply NoDup_app; [exact H | repeat constructor; intros [] |].
  intros y Hy [<- | []]; exact (E Hy).
Qed.

Lemma add_edge_NoDup : forall g u v,
    NoDup (DiGraph.edges g) -> NoDup (DiGraph.edges (DiGraph.add_edge g u v)).
Proof.
  intros g u v H; unfold DiGraph.add_edge.
  destruct (DiGraph.has_edge _ u v) eqn:E; simpl;
    rewrite ?DiGraphFacts.edges_add_node; [exact H|].
  assert (Hn : ~ In (u, v) (DiGraph.edges g)).
  { intros Hin.
    assert (DiGraph.has_edge (DiGraph.add_node (DiGraph.add_node g u) v) u v = true)
      by (apply DiGraphFacts.has_edge_In; rewrite !DiGraphFacts.edges_add_node; exact Hin).
    congruence. }
  apply NoDup_app; [exact H | repeat constructor; intros [] |].
  intros y Hy [<- | []]; exact (Hn Hy).
Qed.

Lemma collect_nodes_NoDup : forall files rx,
    NoDup (DiGraph.nodes (b_graph (collect files rx))).
Proof.
  intros files rx; unfold collect.
  apply (fold_left_invariant (fun b => NoDup (DiGraph.nodes (b_graph b))));
    [|constructor].
  intros b f _ Hb; unfold collect_file.
  destruct (rx (rel f)); [exact Hb|]; destruct (parsed f); [exact Hb|].
  apply visit_env_invariant with (Inv := fun b => NoDup (DiGraph.nodes (b_graph b)));
    [|exact Hb].
  intros c name lineno node H; simpl; apply add_node_NoDup; exact H.
Qed.

(** X2: the built graph has no multiplicity.  A qualified name that is
    defined twice is one node, and any number of call sites from one
    definition to another make one edge. *)
Theorem build_call_graph_no_multiplicity :
  forall files rx_exclude,
    NoDup (DiGraph.nodes (graph (build_call_graph files rx_exclude))) /\
    NoDup (DiGraph.edges (graph (build_call_graph files rx_exclude))).
Proof.
  intros files rx; split.
  - destruct (build_nodes files rx) as [Hn _].
    destruct (collect_consistent files rx) as (Hk & _ & _).
    rewrite Hn, <- Hk; apply collect_nodes_NoDup.
  - unfold build_call_graph, add_edges; simpl.
    apply (fold_left_invariant (fun g => NoDup (DiGraph.edges g)));
      [| rewrite collect_closed; constructor].
    intros g [caller fnode] _ Hg; unfold resolve_def; simpl.
    apply (fold_left_invariant (fun g => NoDup (DiGraph.edges g))); [|exact Hg].
    intros g' n _ Hg'; destruct n; try exact Hg'.
    unfold resolve_node, link.
    destruct (callee_candidates _ _ n); [exact Hg'|].
    apply (fold_left_invariant (fun g => NoDup (DiGraph.edges g))); [|exact Hg'].
    intros g'' callee _ Hg''; apply add_edge_NoDup; exact Hg''.
Qed.

(** ** Where the metadata comes from *)

Lemma get_set : forall V (d : Dict.t V) k v k',
    Dict.get (Dict.set d k v) k' = if String.eqb k' k then Some v else Dict.get d k'.
Proof.
  intros V d k v k'; induction d as [|[k0 v0] rest IH]; simpl; [reflexivity|].
  destruct (String.eqb_spec k k0) as [->|Hk]; simpl.
  - destruct (String.eqb k' k0); reflexivity.
  - rewrite IH.
    destruct (String.eqb_spec k' k0) as [->|Hk'];
      destruct (String.eqb_spec k0 k) as [E|_]; try reflexivity.
    elim Hk; symmetry; exact E.
Qed.

Section Provenance.

Variable module : string.
Variable file_path : Path.
Variable P : string -> ast -> Path -> Z -> Prop.

Let recorded (b : Build) : Prop :=
  forall q d, Dict.get (defs b) q = Some d ->
              exists file line,
                Dict.get (src_map b) q = Some file /\
                Dict.get (line_map b) q = Some line /\ P q d file line.

Let expected (n : ast) (stack0 : list string) : Prop :=
  forall stack d name line,
    encloses n stack d -> def_name d = Some name -> def_lineno d = Some line ->
    P (qualname module (stack0 ++ stack) name) d file_path line.

Lemma register_recorded : forall c name lineno node,
    P (qualname module (cls c) name) node file_path lineno ->
    recorded (env c) -> recorded (env (register module file_path c name lineno node)).
Proof.
  intros c name lineno node HP Hrec q d; simpl; rewrite !get_set.
  destruct (String.eqb_spec q (qualname module (cls c) name)) as [->|Hne].
  - intros H; inversion H; subst; eauto.
  - apply Hrec.
Qed.

Lemma generic_visit_recorded : forall children,
    Forall (fun n => forall c, expected n (cls c) -> recorded (env c) ->
                               recorded (env (visit module file_path n c)))
           children ->
    forall c, (forall child, In child children -> expected child (cls c)) ->
              recorded (env c) ->
              recorded (env (generic_visit module file_path children c)).
Proof.
  intros children H; induction H as [|n rest Hn _ IH]; intros c Hexp Hrec.
  - exact Hrec.
  - change (generic_visit module file_path (n :: rest) c)
      with (generic_visit module file_path rest (visit module file_path n c)).
    apply IH.
    + intros child Hin; rewrite visit_cls; apply Hexp; right; exact Hin.
    + apply Hn; [apply Hexp; left; reflexivity | exact Hrec].
Qed.

Lemma expected_child : forall n child stack0,
    (forall name children, n <> ClassDef name children) ->
    In child (iter_child_nodes n) -> expected n stack0 -> expected child stack0.
Proof.
  intros n child stack0 Hnc Hin Hexp stack d name line He Hd Hl.
  apply Hexp; [eapply enc_child; eassumption | exact Hd | exact Hl].
Qed.

(** What a visit records for a qualified name is a definition of the
    visited tree with that name, together with its file and line. *)
Lemma visit_recorded : forall node c,
    expected node (cls c) -> recorded (env c) ->
    recorded (env (visit module file_path node c)).
Proof.
  induction node using ast_ind; intros c Hexp Hrec; rewrite visit_eq.
  - apply generic_visit_recorded; [assumption | |].
    + intros child Hin; simpl.
      apply (expected_child (n := FunctionDef name lineno children));
        [discriminate | exact Hin | exact Hexp].
    + apply register_recorded; [|exact Hrec].
      rewrite <- (app_nil_r (cls c)); apply Hexp; [constructor | reflexivity | reflexivity].
  - apply generic_visit_recorded; [assumption | |].
    + intros child Hin; simpl.
      apply (expected_child (n := AsyncFunctionDef name lineno children));
        [discriminate | exact Hin | exact Hexp].
    + apply register_recorded; [|exact Hrec].
      rewrite <- (app_nil_r (cls c)); apply Hexp; [constructor | reflexivity | reflexivity].
  - simpl; apply generic_visit_recorded; [assumption | | exact Hrec].
    intros child Hin stack d dname line He Hd Hl; simpl.
    rewrite <- app_assoc; simpl.
    apply Hexp; [eapply enc_class; eassumption | exact Hd | exact Hl].
  - apply generic_visit_recorded; [assumption | |].
    + intros child Hin; rewrite visit_cls.
      apply (expected_child (n := Call node args));
        [discriminate | right; exact Hin | exact Hexp].
    + apply IHnode; [|exact Hrec].
      apply (expected_child (n := Call node args));
        [discriminate | left; reflexivity | exact Hexp].
  - exact Hrec.
  - apply IHnode; [|exact Hrec].
    apply (expected_child (n := Attribute node attr));
      [discriminate | left; reflexivity | exact Hexp].
  - apply generic_visit_recorded; [assumption | | exact Hrec].
    intros child Hin.
    apply (expected_child (n := Other children));
      [discriminate | exact Hin | exact Hexp].
Qed.

End Provenance.

Lemma collect_recorded : forall files rx q d,
    Dict.get (defs (collect files rx)) q = Some d ->
    exists file line,
      Dict.get (src_map (collect files rx)) q = Some file /\
      Dict.get (line_map (collect files rx)) q = Some line /\
      recorded_from files rx q d file line.
Proof.
  intros files rx; unfold collect.
  apply (fold_left_invariant
           (fun b => forall q d, Dict.get (defs b) q = Some d ->
                                 exists file line,
                                   Dict.get (src_map b) q = Some file /\
                                   Dict.get (line_map b) q = Some line /\
                                   recorded_from files rx q d file line));
    [| intros q d H; discriminate].
  intros b f Hf Hb; unfold collect_file.
  destruct (rx (rel f)) eqn:Erx; [exact Hb|].
  destruct (parsed f) as [|tree] eqn:Ep; [exact Hb|].
  apply visit_recorded with (P := recorded_from files rx); [|exact Hb].
  intros stack d name line He Hd Hl; simpl.
  exists f, tree, stack, name; repeat split; assumption.
Qed.

(** X3: what the built graph records for a node comes from one
    definition.  For every node there are a function definition of a
    scanned file (not excluded, parsed) with that qualified name, such that
    the definitions map holds this very definition, [src] holds the path of
    its file and [lines] holds its line. *)
Theorem build_call_graph_metadata_of_one_definition :
  forall files rx_exclude q,
    let cg := build_call_graph files rx_exclude in
    In q (DiGraph.nodes (graph cg)) ->
    exists d file line,
      Dict.get (defs (collect files rx_exclude)) q = Some d /\
      Dict.get (src cg) q = Some file /\
      Dict.get (lines cg) q = Some line /\
      recorded_from files rx_exclude q d file line.
Proof.
  intros files rx q cg Hq.
  destruct (build_nodes files rx) as [Hn _].
  subst cg; rewrite Hn in Hq.
  destruct (DictFacts.get_In _ _ Hq) as [d Hd].
  destruct (collect_recorded files rx q Hd) as (file & line & Hs & Hl & Hr).
  exists d, file, line; repeat split; assumption.
Qed.

Lemma build_call_graph_metadata_of_one_definition_witness :
  exists d file line,
    Dict.get (defs (collect [Samples.in_module_m Samples.recursive_src]
                            Samples.no_exclude)) "m.f" = Some d /\
    Dict.get (src Samples.recursive_cg) "m.f" = Some file /\
    Dict.get (lines Samples.recursive_cg) "m.f" = Some line /\
    recorded_from [Samples.in_module_m Samples.recursive_src] Samples.no_exclude
                  "m.f" d file line.
Proof.
  apply (@build_call_graph_metadata_of_one_definition
           [Samples.in_module_m Samples.recursive_src] Samples.no_exclude "m.f").
  vm_compute; right; left; reflexivity.
Defined.

(** ** Qualified names *)

(** A qualified name is its scope, a dot and the definition's own name. *)
Lemma qualname_scope : forall module stack,
    exists scope, forall name,
      qualname module stack name = (scope ++ "." ++ name)%string.
Proof.
  intros module stack; destruct stack as [|s rest].
  - exists module; intros name; reflexivity.
  - exists (module ++ "." ++ PyStr.join "." (s :: rest))%string; intros name.
    unfold qualname; rewrite PyStrFacts.join_snoc by discriminate.
    rewrite !PyStrFacts.append_assoc; reflexivity.
Qed.

(** Dropping the last segment of a qualified name gives its scope. *)
Lemma caller_prefix_of_scoped : forall scope name,
    dotless name = true -> caller_prefix_of (scope ++ "." ++ name) = scope.
Proof.
  intros scope name Hname; unfold caller_prefix_of.
  rewrite PyStrFacts.split_append_dot, (PyStrFacts.split_dotless_one _ Hname).
  rewrite removelast_last; apply PyStrFacts.join_split.
Qed.

Lemma get_In_item : forall V (d : Dict.t V) k v,
    Dict.get d k = Some v -> In (k, v) d.
Proof.
  intros V d k v; induction d as [|[k0 v0] rest IH]; simpl; [discriminate|].
  destruct (String.eqb_spec k k0) as [->|Hne].
  - intros H; inversion H; left; reflexivity.
  - intros H; right; apply IH, H.
Qed.

Lemma surviving_not_nil : forall caller_prefix candidates,
    candidates <> [] -> surviving caller_prefix candidates <> [].
Proof.
  intros caller_prefix candidates Hne; unfold surviving.
  destruct (filter _ candidates); [exact Hne | discriminate].
Qed.

Lemma discovered_node : forall files rx f tree stack d name,
    In f files -> rx (rel f) = false -> parsed f = Parsed tree ->
    encloses tree stack d -> def_name d = Some name ->
    In (qualname (PyStr.join "." (module_parts f)) stack name)
       (DiGraph.nodes (graph (build_call_graph files rx))).
Proof.
  intros files rx f tree stack d name Hf Hrx Hp He Hd.
  destruct (build_nodes files rx) as [Hn _].
  destruct (collect_consistent files rx) as (Hk & _ & _).
  rewrite Hn, <- Hk; apply collect_nodes.
  exists f, tree, stack, d, name; repeat split; assumption.
Qed.

(* ------------------------------------------------------------------ *)
(** ** Claims about the definition collector *)
(* ------------------------------------------------------------------ *)

(** C2, as stated, fails: for [def outer():] with [def inner(): pass] in its
    body, in module [m], the collector registers [m.outer] and [m.inner];
    no definition is named [m.outer.inner]. *)
Lemma nested_function_not_dotted_under_outer :
  encloses Samples.outer_def [] Samples.inner_def /\
  DiGraph.nodes
    (graph (build_call_graph [Samples.in_module_m Samples.nested_src]
                             Samples.no_exclude))
  = ["m.outer"; "m.inner"] /\
  ~ In "m.outer.inner"
       (DiGraph.nodes
          (graph (build_call_graph [Samples.in_module_m Samples.nested_src]
                                   Samples.no_exclude))).
Proof.
  split; [|split].
  - eapply enc_child; [discriminate | right; left; reflexivity | constructor].
  - vm_compute; reflexivity.
  - vm_compute; intros [H | [H | []]]; discriminate.
Qed.

(** C2, amended: a function or method defined inside the body of another
    function is registered under the qualified name made of the module,
    the names of the classes around it and its own name.  The enclosing
    function contributes no segment: with [stack] the classes around the
    outer function and [stack'] the classes between the two, the name is
    [module.stack.stack'.name] (so [m.inner], not [m.outer.inner]).  That
    name is one node, and what the definitions map, [src] and [lines] hold
    for it is one definition with that qualified name.  Definitions that
    share a qualified name share the node; when no other definition has
    the qualified name of the nested one, the entry is the nested
    definition itself, with the path of its file and its line. *)
Theorem nested_function_qualified_by_classes_only :
  forall files rx_exclude f tree stack outer stack' inner outer_name name,
    In f files -> rx_exclude (rel f) = false -> parsed f = Parsed tree ->
    encloses tree stack outer -> def_name outer = Some outer_name ->
    encloses outer stack' inner -> def_name inner = Some name ->
    let cg := build_call_graph files rx_exclude in
    let known := defs (collect files rx_exclude) in
    let q := qualname (PyStr.join "." (module_parts f)) (stack ++ stack') name in
    In q (DiGraph.nodes (graph cg)) /\
    NoDup (DiGraph.nodes (graph cg)) /\
    (exists d file line,
        Dict.get known q = Some d /\ Dict.get (src cg) q = Some file /\
        Dict.get (lines cg) q = Some line /\
        recorded_from files rx_exclude q d file line) /\
    ((forall f' tree' stack'' d' name',
         In f' files -> rx_exclude (rel f') = false -> parsed f' = Parsed tree' ->
         encloses tree' stack'' d' -> def_name d' = Some name' ->
         qualname (PyStr.join "." (module_parts f')) stack'' name' = q ->
         d' = inner /\ path f' = path f) ->
     Dict.get known q = Some inner /\
     Dict.get (src cg) q = Some (path f) /\
     exists line, def_lineno inner = Some line /\ Dict.get (lines cg) q = Some line).
Proof.
  intros files rx f tree stack outer stack' inner outer_name name
         Hf Hrx Hp Ho Hon Hi Hin cg known q.
  assert (Hq : In q (DiGraph.nodes (b_graph (collect files rx)))).
  { apply collect_nodes.
    exists f, tree, (stack ++ stack'), inner, name; repeat split; try assumption.
    eapply encloses_trans; eassumption. }
  destruct (collect_consistent files rx) as (Hn & Hs & Hl).
  destruct (build_nodes files rx) as [Hb _].
  assert (Hkey : In q (Dict.keys (defs (collect files rx))))
    by (rewrite <- Hn; exact Hq).
  destruct (DictFacts.get_In _ _ Hkey) as [d Hd].
  destruct (collect_recorded files rx q Hd) as (file & line & Hfile & Hline & Hrec).
  split; [subst cg; rewrite Hb; exact Hkey|].
  split; [subst cg; rewrite Hb, <- Hn; apply collect_nodes_NoDup|].
  split; [exists d, file, line; repeat split; assumption|].
  intros Hunique.
  destruct Hrec as (f' & tree' & stack'' & name' & Hf' & Hrx' & Hp' & He' & Hd'
                    & Hl' & Hpath & Hq').
  destruct (Hunique f' tree' stack'' d name' Hf' Hrx' Hp' He' Hd' (eq_sym Hq'))
    as [-> Hsame].
  split; [exact Hd|]; split.
  - subst cg; simpl; rewrite Hfile, Hpath, Hsame; reflexivity.
  - exists line; split; [exact Hl' | exact Hline].
Qed.

Lemma nested_function_qualified_by_classes_only_witness :
  In "m.inner"
     (DiGraph.nodes
        (graph (build_call_graph [Samples.in_module_m Samples.nested_src]
                                 Samples.no_exclude))).
Proof.
  destruct (@nested_function_qualified_by_classes_only
              [Samples.in_module_m Samples.nested_src] Samples.no_exclude
              (Samples.in_module_m Samples.nested_src) Samples.nested_src
              [] Samples.outer_def [] Samples.inner_def "outer" "inner")
    as [H _].
  - left; reflexivity.
  - reflexivity.
  - reflexivity.
  - eapply enc_child; [discriminate | left; reflexivity | constructor].
  - reflexivity.
  - eapply enc_child; [discriminate | right; left; reflexivity | constructor].
  - reflexivity.
  - exact H.
Defined.

(** A function nested in a function of the same name: both have the
    qualified name [m.f], which is a single node; the map and the metadata
    keep the nested one, visited last. *)
Lemma nested_namesake_shares_the_node :
  DiGraph.nodes
    (graph (build_call_graph [Samples.in_module_m Samples.shadow_src]
                             Samples.no_exclude)) = ["m.f"] /\
  lines (build_call_graph [Samples.in_module_m Samples.shadow_src]
                          Samples.no_exclude) = [("m.f", 2%Z)].
Proof. vm_compute; split; reflexivity. Qed.

(* ------------------------------------------------------------------ *)
(** ** Claims about the graph that [build_call_graph] returns *)
(* ------------------------------------------------------------------ *)

(** C7: in the graph returned by [build_call_graph], whatever the files and
    the exclusion pattern, both endpoints of every edge are nodes; the node
    list is the key list of the definitions map, that is, exactly the
    discovered definitions; and a call with no candidate leaves the graph
    as it is (no edge, no new node). *)
Theorem build_call_graph_no_dangling_edges :
  forall files rx_exclude,
    let cg := build_call_graph files rx_exclude in
    let known := defs (collect files rx_exclude) in
    (forall u v, In (u, v) (DiGraph.edges (graph cg)) ->
                 In u (DiGraph.nodes (graph cg)) /\ In v (DiGraph.nodes (graph cg))) /\
    DiGraph.nodes (graph cg) = Dict.keys known /\
    (forall q, In q (DiGraph.nodes (graph cg)) <-> discovered files rx_exclude q) /\
    (forall caller g func args,
        callee_candidates known (caller_prefix_of caller) func = [] ->
        resolve_node known caller g (Call func args) = g).
Proof.
  intros files rx cg known.
  destruct (build_nodes files rx) as [Hn Hc].
  destruct (collect_consistent files rx) as (Hk & _ & _).
  split; [exact Hc|]; split; [exact Hn|]; split.
  - intros q; subst cg; rewrite Hn, <- Hk; apply collect_nodes.
  - intros caller g func args H; unfold resolve_node; rewrite H; reflexivity.
Qed.

Lemma build_call_graph_no_dangling_edges_witness :
  In "m.r" (DiGraph.nodes (graph Samples.recursive_cg)) /\
  In "m.f" (DiGraph.nodes (graph Samples.recursive_cg)).
Proof.
  apply (proj1 (build_call_graph_no_dangling_edges
                  [Samples.in_module_m Samples.recursive_src] Samples.no_exclude)
               "m.r" "m.f").
  vm_compute; left; reflexivity.
Defined.



(** The first loop ends without an exception when every path that raises
    is excluded. *)
Lemma scan_survives : forall rx ys b,
    (forall r e, In (Escapes r e) ys -> rx r = true) ->
    scan rx b ys = inr (fold_left (collect_file rx) (processed ys) b).
Proof.
  intros rx ys; induction ys as [|[f | r e] rest IH]; intros b H; simpl.
  - reflexivity.
  - apply IH; intros r e Hin; apply (H r e); right; exact Hin.
  - rewrite (H r e (or_introl eq_refl)).
    apply IH; intros r' e' Hin; apply (H r' e'); right; exact Hin.
Qed.


Lemma processed_app : forall ys1 ys2,
    processed (ys1 ++ ys2) = processed ys1 ++ processed ys2.
Proof. intros; unfold processed; apply flat_map_app. Qed.




(* ------------------------------------------------------------------ *)
(** ** Claims about the call resolver *)
(* ------------------------------------------------------------------ *)

(** C3: for a call expression with at least one candidate, let [same_pkg]
    be the candidates that start with the caller's enclosing-scope prefix:
    the caller's qualified name without its last dotted segment and the dot
    before it.  If [same_pkg] is not empty, the edges after the call are
    the edges before it plus one edge from the caller to each member of
    [same_pkg]; otherwise they are the edges before it plus one edge from
    the caller to each candidate.  All surviving candidates are linked, not
    one of them. *)
Theorem call_links_same_package_else_all :
  forall known caller g func args,
    let caller_prefix := caller_prefix_of caller in
    let candidates := callee_candidates known caller_prefix func in
    let same_pkg := filter (fun c => PyStr.startswith c caller_prefix) candidates in
    let g' := resolve_node known caller g (Call func args) in
    candidates <> [] ->
    (forall scope name,
        dotless name = true -> caller = (scope ++ "." ++ name)%string ->
        caller_prefix = scope) /\
    (forall c, In c same_pkg <->
               In c candidates /\ exists rest, c = (caller_prefix ++ rest)%string) /\
    (same_pkg <> [] ->
     forall u v, In (u, v) (DiGraph.edges g') <->
                 In (u, v) (DiGraph.edges g) \/ (u = caller /\ In v same_pkg)) /\
    (same_pkg = [] ->
     forall u v, In (u, v) (DiGraph.edges g') <->
                 In (u, v) (DiGraph.edges g) \/ (u = caller /\ In v candidates)).
Proof.
  intros known caller g func args caller_prefix candidates same_pkg g' Hne.
  assert (Hedges : forall u v,
             In (u, v) (DiGraph.edges g') <->
             In (u, v) (DiGraph.edges g) \/
             (u = caller /\ In v (surviving caller_prefix candidates))).
  { intros u v; subst g'; unfold resolve_node.
    fold caller_prefix; fold candidates; rewrite In_edges_link; split.
    - intros [H | [callee [Hc H]]]; [left; exact H | right].
      inversion H; subst; split; [reflexivity | exact Hc].
    - intros [H | [-> Hv]]; [left; exact H | right].
      exists v; split; [exact Hv | reflexivity]. }
  split; [|split; [|split]].
  - intros scope name Hname ->; subst caller_prefix.
    apply caller_prefix_of_scoped, Hname.
  - intros c; subst same_pkg; rewrite filter_In, PyStrFacts.startswith_spec; reflexivity.
  - intros Hsame u v; rewrite Hedges; unfold surviving; fold same_pkg.
    destruct same_pkg; [congruence | reflexivity].
  - intros Hsame u v; rewrite Hedges; unfold surviving; fold same_pkg.
    rewrite Hsame; reflexivity.
Qed.

Lemma call_links_same_package_else_all_witness :
  let known :=
    defs (collect [Samples.in_module_m Samples.method_src; Samples.other_file]
                  Samples.no_exclude) in
  let g' := resolve_node known "m.Foo.m1" DiGraph.empty (Call (Name "m2") []) in
  caller_prefix_of "m.Foo.m1" = "m.Foo" /\
  In ("m.Foo.m1", "m.Foo.m2") (DiGraph.edges g') /\
  ~ In ("m.Foo.m1", "pkg.n.m2") (DiGraph.edges g').
Proof.
  intros known g'.
  destruct (@call_links_same_package_else_all
              known "m.Foo.m1" DiGraph.empty (Name "m2") []) as (Hprefix & _ & Hsame & _).
  - vm_compute; discriminate.
  - assert (Hne : filter (fun c => PyStr.startswith c (caller_prefix_of "m.Foo.m1"))
                         (callee_candidates known (caller_prefix_of "m.Foo.m1") (Name "m2"))
                  <> []) by (vm_compute; discriminate).
    split; [|split].
    + apply (Hprefix "m.Foo" "m1"); reflexivity.
    + apply (Hsame Hne); right; split; [reflexivity | vm_compute; left; reflexivity].
    + intros H; apply (Hsame Hne) in H; destruct H as [[] | [_ H]].
      vm_compute in H; destruct H as [H | []]; discriminate.
Defined.

Lemma is_self_or_cls_spec : forall id,
    is_self_or_cls id = true <-> id = "self" \/ id = "cls".
Proof.
  intros id; unfold is_self_or_cls.
  rewrite orb_true_iff, !String.eqb_eq; reflexivity.
Qed.

(** C4: for an attribute call on the bare name [self] or [cls], let
    [same_cls] be the caller's qualified name without its final segment,
    followed by a dot and the attribute name.  If [same_cls] is a key of the
    definitions map, it is the only candidate, whatever else the map holds,
    and the call adds exactly the edge from the caller to it.  Otherwise the
    candidates are the keys that end with a dot and the attribute name:
    those whose last dotted segment is the attribute name. *)
Theorem self_call_resolves_in_own_class_first :
  forall known caller receiver attr g args,
    receiver = "self" \/ receiver = "cls" ->
    dotless attr = true ->
    let caller_prefix := caller_prefix_of caller in
    let same_cls := (caller_prefix ++ "." ++ attr)%string in
    let func := Attribute (Name receiver) attr in
    let g' := resolve_node known caller g (Call func args) in
    (Dict.mem same_cls known = true ->
     callee_candidates known caller_prefix func = [same_cls] /\
     g' = DiGraph.add_edge g caller same_cls /\
     forall e, In e (DiGraph.edges g') <->
               In e (DiGraph.edges g) \/ e = (caller, same_cls)) /\
    (Dict.mem same_cls known = false ->
     callee_candidates known caller_prefix func = trailing_matches known attr /\
     forall d, In d (callee_candidates known caller_prefix func) <->
               In d (Dict.keys known) /\
               exists init, init <> [] /\ PyStr.split "." d = init ++ [attr]).
Proof.
  intros known caller receiver attr g args Hrecv Hattr caller_prefix same_cls func g'.
  apply is_self_or_cls_spec in Hrecv.
  split; intros Hmem.
  - assert (Hc : callee_candidates known caller_prefix func = [same_cls]).
    { subst func; unfold callee_candidates; rewrite Hrecv.
      change (caller_prefix ++ "." ++ attr)%string with same_cls.
      rewrite Hmem; reflexivity. }
    assert (Hg : g' = DiGraph.add_edge g caller same_cls).
    { subst g'; unfold resolve_node; fold caller_prefix; rewrite Hc.
      unfold link, surviving; simpl.
      destruct (PyStr.startswith same_cls caller_prefix); reflexivity. }
    split; [exact Hc|]; split; [exact Hg|].
    intros e; rewrite Hg; apply DiGraphFacts.In_edges_add_edge.
  - assert (Hc : callee_candidates known caller_prefix func
                 = trailing_matches known attr).
    { subst func; unfold callee_candidates; rewrite Hrecv.
      change (caller_prefix ++ "." ++ attr)%string with same_cls.
      rewrite Hmem; reflexivity. }
    split; [exact Hc|].
    intros d; rewrite Hc; unfold trailing_matches.
    rewrite filter_In, (PyStrFacts.endswith_last_segment d attr Hattr); reflexivity.
Qed.

Lemma self_call_resolves_in_own_class_first_witness :
  let known :=
    defs (collect [Samples.in_module_m Samples.method_src; Samples.other_file]
                  Samples.no_exclude) in
  callee_candidates known (caller_prefix_of "m.Foo.m1")
                    (Attribute (Name "self") "m2") = ["m.Foo.m2"].
Proof.
  intros known.
  destruct (@self_call_resolves_in_own_class_first
              known "m.Foo.m1" "self" "m2" DiGraph.empty [])
    as ((Hc & _) & _).
  - left; reflexivity.
  - reflexivity.
  - vm_compute; reflexivity.
  - exact Hc.
Defined.

(* ------------------------------------------------------------------ *)
(** ** Claims about the call graph store *)
(* ------------------------------------------------------------------ *)

Lemma filter_none : forall (A : Type) (f : A -> bool) l,
    (forall x, f x = false) -> filter f l = [].
Proof.
  intros A f l Hf; induction l as [|x rest IH]; simpl; [reflexivity|].
  rewrite Hf; exact IH.
Qed.

Lemma mem_filter : forall keep (l : list string) n,
    In n l -> PyStr.mem n (filter keep l) = keep n.
Proof.
  intros keep l n Hn.
  destruct (keep n) eqn:E.
  - apply PyStrFacts.mem_In, filter_In; auto.
  - apply PyStrFacts.mem_false; intros H; apply filter_In in H; destruct H; congruence.
Qed.

Lemma subgraph_nodes_filter : forall g keep,
    DiGraph.nodes (DiGraph.subgraph g (filter keep (DiGraph.nodes g)))
    = filter keep (DiGraph.nodes g).
Proof.
  intros g keep; simpl; apply filter_ext_in; intros n Hn; apply mem_filter, Hn.
Qed.

Lemma nth_error_past : forall (A : Type) (h l : list A) i,
    nth_error (h ++ l) (List.length h + i) = nth_error l i.
Proof.
  intros A h l i; rewrite nth_error_app2 by lia; f_equal; lia.
Qed.

Lemma nth_error_kept : forall (A : Type) (h l : list A) a o,
    nth_error h a = Some o -> nth_error (h ++ l) a = Some o.
Proof.
  intros A h l a o H; rewrite nth_error_app1; [exact H|].
  apply nth_error_Some; congruence.
Qed.

Lemma read_kept : forall h l ref cg,
    Store.read h ref = Some cg -> Store.read (h ++ l) ref = Some cg.
Proof.
  intros h l ref cg; unfold Store.read.
  destruct (nth_error h ref) as [[| | |rg rs rl]|] eqn:E; try discriminate.
  rewrite (nth_error_kept h l ref E).
  destruct (nth_error h rg) as [[g| | |]|] eqn:Eg; try discriminate.
  destruct (nth_error h rs) as [[|s| |]|] eqn:Es; try discriminate.
  destruct (nth_error h rl) as [[| |k|]|] eqn:El; try discriminate.
  rewrite (nth_error_kept h l rg Eg), (nth_error_kept h l rs Es),
    (nth_error_kept h l rl El); tauto.
Qed.

(** C6: [filtered] returns a graph whose nodes are the nodes of the
    receiver that match the pattern, whose edges are the edges of the
    receiver with both endpoints among those, and whose two metadata maps
    are the receiver's, restricted to those nodes.  When nothing matches,
    the result is the empty graph with empty metadata.  As objects: the
    result and its three parts are new objects, and every object that
    existed before the call, the receiver and its parts among them, is
    left as it was. *)
Theorem filtered_restricts_without_mutation :
  forall cg pattern,
    let r := filtered cg pattern in
    (forall n, In n (DiGraph.nodes (graph r)) <->
               In n (DiGraph.nodes (graph cg)) /\ pattern n = true) /\
    (forall u v, In (u, v) (DiGraph.edges (graph r)) <->
                 In (u, v) (DiGraph.edges (graph cg)) /\
                 In u (DiGraph.nodes (graph r)) /\ In v (DiGraph.nodes (graph r))) /\
    (forall k, Dict.get (src r) k =
               if PyStr.mem k (DiGraph.nodes (graph r)) then Dict.get (src cg) k
               else None) /\
    (forall k, Dict.get (lines r) k =
               if PyStr.mem k (DiGraph.nodes (graph r)) then Dict.get (lines cg) k
               else None) /\
    ((forall n, In n (DiGraph.nodes (graph cg)) -> pattern n = false) ->
     r = mkCallGraph DiGraph.empty Dict.empty Dict.empty) /\
    (forall h self,
        Store.read h self = Some cg ->
        exists h' ref rg rs rl,
          Store.filtered h self pattern = Some (h', ref) /\
          Store.read h' ref = Some r /\
          nth_error h' ref = Some (Store.ObjCallGraph rg rs rl) /\
          List.length h <= rg /\ List.length h <= rs /\ List.length h <= rl /\
          List.length h <= ref /\
          (forall a o, nth_error h a = Some o -> nth_error h' a = Some o) /\
          Store.read h' self = Some cg).
Proof.
  intros cg pattern r.
  assert (Hnodes : DiGraph.nodes (graph r) = filter pattern (DiGraph.nodes (graph cg)))
    by (apply subgraph_nodes_filter).
  assert (Hempty : (forall n, In n (DiGraph.nodes (graph cg)) -> pattern n = false) ->
                   filter pattern (DiGraph.nodes (graph cg)) = []).
  { intros Hno; destruct (filter pattern (DiGraph.nodes (graph cg))) as [|n l] eqn:E;
      [reflexivity|].
    assert (Hn : In n (n :: l)) by (left; reflexivity).
    rewrite <- E in Hn; apply filter_In in Hn; destruct Hn as [Hn Hp].
    rewrite (Hno n Hn) in Hp; discriminate. }
  split; [|split; [|split; [|split; [|split]]]].
  - intros n; rewrite Hnodes; apply filter_In.
  - intros u v; rewrite Hnodes; subst r; simpl.
    rewrite filter_In, andb_true_iff, !PyStrFacts.mem_In; reflexivity.
  - intros k; rewrite Hnodes; subst r; simpl; apply DictFacts.get_restrict.
  - intros k; rewrite Hnodes; subst r; simpl; apply DictFacts.get_restrict.
  - intros Hno; subst r; unfold filtered, DiGraph.subgraph, Dict.restrict.
    rewrite (Hempty Hno); simpl.
    rewrite !filter_none by reflexivity; reflexivity.
  - intros h self Hread; unfold Store.filtered, Store.alloc; rewrite Hread; simpl.
    set (o1 := Store.ObjDiGraph _); set (o2 := Store.ObjSrc _);
      set (o3 := Store.ObjLines _).
    rewrite !length_app; simpl.
    set (o4 := Store.ObjCallGraph _ _ _).
    assert (Hh : (((h ++ [o1]) ++ [o2]) ++ [o3]) ++ [o4] = h ++ [o1; o2; o3; o4])
      by (rewrite <- !app_assoc; reflexivity).
    rewrite Hh.
    assert (H0 : nth_error (h ++ [o1; o2; o3; o4]) (List.length h) = Some o1)
      by (pose proof (nth_error_past h [o1; o2; o3; o4] 0) as H0;
          rewrite Nat.add_0_r in H0; exact H0).
    assert (H1 : nth_error (h ++ [o1; o2; o3; o4]) (List.length h + 1) = Some o2)
      by (apply nth_error_past).
    assert (H2 : nth_error (h ++ [o1; o2; o3; o4]) (List.length h + 1 + 1) = Some o3)
      by (rewrite <- Nat.add_assoc; apply nth_error_past).
    assert (H3 : nth_error (h ++ [o1; o2; o3; o4]) (List.length h + 1 + 1 + 1) = Some o4)
      by (rewrite <- !Nat.add_assoc; apply nth_error_past).
    exists (h ++ [o1; o2; o3; o4]), (List.length h + 1 + 1 + 1),
      (List.length h), (List.length h + 1), (List.length h + 1 + 1).
    split; [reflexivity|]; split.
    { unfold Store.read; rewrite H3; subst o4; cbv beta iota.
      rewrite H0, H1, H2; reflexivity. }
    split; [exact H3|].
    repeat (split; [lia|]).
    split; [intros a o Ha; apply nth_error_kept; exact Ha | apply read_kept; exact Hread].
Qed.

Lemma filtered_restricts_without_mutation_witness :
  filtered Samples.recursive_cg (fun _ => false)
  = mkCallGraph DiGraph.empty Dict.empty Dict.empty /\
  In "m.f" (DiGraph.nodes
              (graph (filtered Samples.recursive_cg (fun n => String.eqb n "m.f")))).
Proof.
  split.
  - destruct (filtered_restricts_without_mutation
                Samples.recursive_cg (fun _ => false)) as (_ & _ & _ & _ & H & _).
    apply H; intros n _; reflexivity.
  - destruct (filtered_restricts_without_mutation
                Samples.recursive_cg (fun n => String.eqb n "m.f")) as (H & _).
    apply H; split; [vm_compute; right; left; reflexivity | reflexivity].
Defined.

(** C9, as stated, fails: [lab.py] holds [def a(): pass] and is scanned
    from the root [/srv/proj].  Its path relative to the root is [lab.py],
    but the label of [lab.a] shows the path that the scan yielded, root
    included. *)
Lemma label_shows_yielded_not_relative_path :
  rel Samples.lab_file = "lab.py" /\
  label (build_call_graph [Samples.lab_file] Samples.no_exclude) "lab.a"
  = inr "a @ /srv/proj/lab.py:1" /\
  label (build_call_graph [Samples.lab_file] Samples.no_exclude) "lab.a"
  <> inr ("a @ " ++ rel Samples.lab_file ++ ":1")%string.
Proof.
  split; [reflexivity|]; split; [vm_compute; reflexivity|].
  vm_compute; discriminate.
Qed.

(** C9, amended: for every node string, [label] returns, and never fails,
    [func ++ " @ " ++ file ++ ":" ++ line], where [func] is the last dotted
    segment of the node, [file] is the POSIX rendering of the path recorded
    for the node, or ["?"] when none is recorded, and [line] is the decimal
    rendering of the recorded line, or ["1"] when none is recorded.  For a
    node of a graph returned by [build_call_graph] the recorded path is the
    path of a scanned file as the scan yielded it, not its path relative to
    the root: the file of the definition recorded for the node, whose line
    is the one shown. *)
Theorem label_format_and_fallback :
  (forall cg node,
      exists init func,
        PyStr.split "." node = init ++ [func] /\
        dotless func = true /\
        node = PyStr.join "." (init ++ [func]) /\
        label cg node =
        inr (func ++ " @ "
               ++ match Dict.get (src cg) node with
                  | Some file => as_posix file
                  | None => "?"
                  end
               ++ ":"
               ++ match Dict.get (lines cg) node with
                  | Some line => PyStr.of_int line
                  | None => "1"
                  end)%string) /\
  (forall files rx_exclude q,
      In q (DiGraph.nodes (graph (build_call_graph files rx_exclude))) ->
      exists d f tree stack name line init func,
        In f files /\ rx_exclude (rel f) = false /\ parsed f = Parsed tree /\
        encloses tree stack d /\ def_name d = Some name /\
        def_lineno d = Some line /\
        q = qualname (PyStr.join "." (module_parts f)) stack name /\
        Dict.get (defs (collect files rx_exclude)) q = Some d /\
        PyStr.split "." q = init ++ [func] /\
        label (build_call_graph files rx_exclude) q =
        inr (func ++ " @ " ++ as_posix (path f) ++ ":" ++ PyStr.of_int line)%string).
Proof.
  split.
  - intros cg node.
    destruct (PyStrFacts.split_last node) as (init & func & Hs & Hd & Hj).
    exists init, func; repeat split; try assumption.
    unfold label; rewrite Hs, PyStrFacts.last_item_snoc.
    destruct (Dict.get (src cg) node), (Dict.get (lines cg) node); reflexivity.
  - intros files rx q Hq.
    destruct (build_nodes files rx) as [Hn _]; rewrite Hn in Hq.
    destruct (DictFacts.get_In _ _ Hq) as [d Hd].
    destruct (collect_recorded files rx q Hd)
      as (file & line & Hs & Hl & f & tree & stack & name & Hf & Hrx & Hp & He
          & Hname & Hline & Hpath & Hqual).
    destruct (PyStrFacts.split_last q) as (init & func & Hsplit & _ & _).
    exists d, f, tree, stack, name, line, init, func.
    repeat (split; [assumption|]).
    unfold label, build_call_graph; simpl.
    rewrite Hsplit, PyStrFacts.last_item_snoc, Hs, Hl, Hpath; reflexivity.
Qed.

Lemma label_format_and_fallback_witness :
  exists d f tree stack name line init func,
    In f [Samples.lab_file] /\ Samples.no_exclude (rel f) = false /\
    parsed f = Parsed tree /\ encloses tree stack d /\ def_name d = Some name /\
    def_lineno d = Some line /\
    "lab.a" = qualname (PyStr.join "." (module_parts f)) stack name /\
    Dict.get (defs (collect [Samples.lab_file] Samples.no_exclude)) "lab.a" = Some d /\
    PyStr.split "." "lab.a" = init ++ [func] /\
    label (build_call_graph [Samples.lab_file] Samples.no_exclude) "lab.a" =
    inr (func ++ " @ " ++ as_posix (path f) ++ ":" ++ PyStr.of_int line)%string.
Proof.
  destruct label_format_and_fallback as [_ Hbuilt].
  apply (Hbuilt [Samples.lab_file] Samples.no_exclude "lab.a").
  vm_compute; left; reflexivity.
Defined.

Lemma filtered_covered : forall cg pattern, covered cg -> covered (filtered cg pattern).
Proof.
  intros cg pattern Hcov k; destruct (Hcov k) as [Hs Hl].
  unfold filtered; simpl.
  rewrite !DictFacts.keys_restrict, !filter_In, Hs, Hl; tauto.
Qed.

Lemma build_covered : forall files rx, covered (build_call_graph files rx).
Proof.
  intros files rx k.
  destruct (build_nodes files rx) as [Hn _]; rewrite Hn.
  destruct (collect_consistent files rx) as (_ & Hs & Hl).
  simpl; rewrite Hs, Hl; tauto.
Qed.

(** C10: in a call graph returned by [build_call_graph], the key sets of
    [src] and of [lines] are exactly the node set of the graph; [filtered]
    keeps it so; and in a call graph where it is so, [label] of a node
    finds both a recorded file and a recorded line, so neither the ["?"]
    nor the line-1 fallback is taken. *)
Theorem metadata_covers_every_node :
  (forall files rx_exclude, covered (build_call_graph files rx_exclude)) /\
  (forall cg pattern, covered cg -> covered (filtered cg pattern)) /\
  (forall cg node,
      covered cg -> In node (DiGraph.nodes (graph cg)) ->
      exists file line init func,
        Dict.get (src cg) node = Some file /\
        Dict.get (lines cg) node = Some line /\
        PyStr.split "." node = init ++ [func] /\
        label cg node =
        inr (func ++ " @ " ++ as_posix file ++ ":" ++ PyStr.of_int line)%string).
Proof.
  split; [exact build_covered|]; split; [exact filtered_covered|].
  intros cg node Hcov Hin; destruct (Hcov node) as [Hs Hl].
  destruct (@DictFacts.get_In _ (src cg) node) as [file Hfile];
    [apply Hs; exact Hin|].
  destruct (@DictFacts.get_In _ (lines cg) node) as [line Hline];
    [apply Hl; exact Hin|].
  destruct (PyStrFacts.split_last node) as (init & func & Hsplit & _ & _).
  exists file, line, init, func; repeat split; try assumption.
  unfold label; rewrite Hsplit, PyStrFacts.last_item_snoc, Hfile, Hline; reflexivity.
Qed.

Lemma metadata_covers_every_node_witness :
  exists file line init func,
    Dict.get (src (filtered Samples.recursive_cg (fun _ => true))) "m.f" = Some file /\
    Dict.get (lines (filtered Samples.recursive_cg (fun _ => true))) "m.f" = Some line /\
    PyStr.split "." "m.f" = init ++ [func] /\
    label (filtered Samples.recursive_cg (fun _ => true)) "m.f" =
    inr (func ++ " @ " ++ as_posix file ++ ":" ++ PyStr.of_int line)%string.
Proof.
  destruct metadata_covers_every_node as (Hbuild & Hfiltered & Hlabel).
  apply Hlabel.
  - apply Hfiltered, Hbuild.
  - vm_compute; right; left; reflexivity.
Defined.

(* ------------------------------------------------------------------ *)
(** ** Claims about the caller-tree printer *)
(* ------------------------------------------------------------------ *)

Lemma label_returns : forall cg node, exists text, label cg node = inr text.
Proof.
  intros cg node.
  destruct (PyStrFacts.split_last node) as (init & func & Hs & _ & _).
  unfold label; rewrite Hs, PyStrFacts.last_item_snoc; eexists; reflexivity.
Qed.

(** The only way the tree walk stops early is by running out of frames. *)
Lemma for_each_returns_or_overflows : forall (A : Type) (body : A -> Py unit) xs,
    (forall x out, returns_or_overflows (body x out)) ->
    forall out, returns_or_overflows (for_each xs body out).
Proof.
  intros A body xs Hbody; induction xs as [|x rest IH]; intros out.
  - left; reflexivity.
  - simpl; unfold bind.
    destruct (Hbody x out) as [H | H]; destruct (body x out) as [out' [e | []]];
      simpl in H; try discriminate.
    + apply IH.
    + right; simpl; exact H.
Qed.

Lemma walk_S : forall cg depth anc node prefix last,
    walk cg (S depth) anc node prefix last =
    (text <- lift (label cg node) ;;
     print (prefix ++ (if last then "└── " else "├── ") ++ text)%string ;;;
     for_each (enumerate (kids_of cg anc node))
       (fun ik =>
          walk cg depth anc (snd ik)
               (prefix ++ (if last then "    " else "│   "))%string
               (is_last_index (fst ik) (kids_of cg anc node))))%py.
Proof. reflexivity. Qed.

Lemma walk_returns_or_overflows : forall cg depth anc node prefix last out,
    returns_or_overflows (walk cg depth anc node prefix last out).
Proof.
  intros cg depth anc; induction depth as [|d IH]; intros node prefix last out.
  - right; reflexivity.
  - rewrite walk_S; unfold bind at 1, lift.
    destruct (label_returns cg node) as [text ->].
    unfold bind at 1, print.
    apply for_each_returns_or_overflows; intros [i k] out'; apply IH.
Qed.

Lemma for_each_print : forall (A : Type) (f : A -> string) xs out,
    for_each xs (fun x => print (f x)) out = (out ++ map f xs, inr tt).
Proof.
  intros A f xs; induction xs as [|x rest IH]; intros out; simpl.
  - rewrite app_nil_r; reflexivity.
  - unfold bind, print at 1; rewrite IH, <- app_assoc; reflexivity.
Qed.

Lemma matches_spec : forall cg target n,
    In n (matches cg target) <->
    In n (DiGraph.nodes (graph cg)) /\
    (n = target \/ exists p, n = (p ++ "." ++ target)%string).
Proof.
  intros cg target n; unfold matches.
  rewrite filter_In, orb_true_iff, PyStrFacts.endswith_spec, String.eqb_eq; tauto.
Qed.

(** The exits that the program takes: [print_caller_tree] leaves through
    [sys.exit] exactly when the number of nodes that equal the target or
    end with a dot and the target is not one, and the exit status is then
    non-zero.  With no match it prints nothing and exits with a message
    that names the target; with several it prints a heading, every match
    and a hint, then exits with status 1; with exactly one it goes on to
    the tree, where the only way not to return is [RecursionError]. *)
Lemma print_caller_tree_exits_unless_one_match :
  forall cg depth target out,
    let found := matches cg target in
    let result := print_caller_tree cg depth target out in
    (forall n, In n found <->
               In n (DiGraph.nodes (graph cg)) /\
               (n = target \/ exists p, n = (p ++ "." ++ target)%string)) /\
    (found = [] ->
     result = (out, inl (SystemExit
                           (ExitMessage ("✘ function '" ++ target ++ "' not found")%string)))) /\
    (1 < List.length found ->
     result = (out ++ ["⚠ Ambiguous function name. Matches:"]
                   ++ map (fun m => ("  • " ++ m)%string) found
                   ++ ["Please specify full path like <module>.<func> or <module>.<Class>.<method>."],
               inl (SystemExit (ExitCode 1)))) /\
    (List.length found = 1 ->
     snd result = inr tt \/ snd result = inl RecursionError) /\
    ((exists arg, snd result = inl (SystemExit arg)) <-> List.length found <> 1) /\
    (forall arg, snd result = inl (SystemExit arg) -> exit_status arg <> 0%Z).
Proof.
  intros cg depth target out found result.
  assert (Hnone : found = [] ->
                  result = (out, inl (SystemExit
                     (ExitMessage ("✘ function '" ++ target ++ "' not found")%string)))).
  { intros H; subst result; unfold print_caller_tree; fold found; rewrite H; reflexivity. }
  assert (Hmany : 1 < List.length found ->
                  result = (out ++ ["⚠ Ambiguous function name. Matches:"]
                                ++ map (fun m => ("  • " ++ m)%string) found
                                ++ ["Please specify full path like <module>.<func> or <module>.<Class>.<method>."],
                            inl (SystemExit (ExitCode 1)))).
  { intros H; subst result; unfold print_caller_tree; fold found.
    destruct found as [|tgt [|other rest]] eqn:E; simpl in H; try lia.
    unfold bind at 1, print at 1; unfold bind at 1.
    rewrite for_each_print; unfold bind, print, raise.
    rewrite <- !app_assoc; reflexivity. }
  assert (Hone : List.length found = 1 -> returns_or_overflows result).
  { intros H; subst result; unfold print_caller_tree; fold found.
    destruct found as [|tgt [|other rest]]; simpl in H; try lia.
    apply for_each_returns_or_overflows; intros [i r] out'.
    apply walk_returns_or_overflows. }
  split; [apply matches_spec|]; split; [exact Hnone|]; split; [exact Hmany|].
  split; [exact Hone|]; split; [split|].
  - intros [arg Harg] H1; destruct (Hone H1) as [H | H]; congruence.
  - intros Hne.
    destruct found as [|tgt [|other rest]] eqn:E.
    + eexists; rewrite Hnone by reflexivity; reflexivity.
    + elim Hne; reflexivity.
    + eexists; rewrite Hmany by (simpl; lia); reflexivity.
  - intros arg Harg.
    destruct found as [|tgt [|other rest]] eqn:E.
    + rewrite Hnone in Harg by reflexivity; inversion Harg; discriminate.
    + destruct Hone as [H | H]; [reflexivity | |]; congruence.
    + rewrite Hmany in Harg by (simpl; lia); inversion Harg; discriminate.
Qed.

Lemma print_caller_tree_exits_unless_one_match_witness :
  print_caller_tree Samples.recursive_cg 8 "missing" []
  = ([], inl (SystemExit (ExitMessage "✘ function 'missing' not found"))).
Proof.
  destruct (print_caller_tree_exits_unless_one_match
              Samples.recursive_cg 8 "missing" []) as (_ & Hnone & _).
  apply Hnone; vm_compute; reflexivity.
Defined.

(** *** Recursion among the ancestors *)

Lemma enumerate_from_In : forall (A : Type) (xs : list A) i x,
    In x xs -> exists j, In (j, x) (enumerate_from i xs).
Proof.
  intros A xs; induction xs as [|y rest IH]; intros i x Hin; [destruct Hin|].
  destruct Hin as [<- | Hin].
  - exists i; left; reflexivity.
  - destruct (IH (S i) x Hin) as [j Hj]; exists j; right; exact Hj.
Qed.

Lemma for_each_overflows : forall (A : Type) (body : A -> Py unit) xs x,
    In x xs ->
    (forall y out, returns_or_overflows (body y out)) ->
    (forall out, snd (body x out) = inl RecursionError) ->
    forall out, snd (for_each xs body out) = inl RecursionError.
Proof.
  intros A body xs x Hin Hall Hx; induction xs as [|y rest IH]; intros out;
    [destruct Hin|].
  simpl; unfold bind.
  destruct Hin as [-> | Hin].
  - specialize (Hx out); destruct (body x out) as [out' [e | u]]; simpl in *;
      congruence.
  - destruct (Hall y out) as [H | H]; destruct (body y out) as [out' [e | []]];
      simpl in H; try discriminate.
    + apply IH, Hin.
    + simpl; exact H.
Qed.

Lemma insert_sorted_In : forall x y l,
    In y (PyStr.insert_sorted x l) <-> y = x \/ In y l.
Proof.
  intros x y l; induction l as [|z rest IH]; simpl.
  - split; [intros [H | []]; left; symmetry; exact H | intros [H | []]; left; symmetry; exact H].
  - destruct (String.ltb x z); simpl; [|rewrite IH]; split; intuition congruence.
Qed.

Lemma sorted_In : forall l y, In y (PyStr.sorted l) <-> In y l.
Proof.
  intros l y; unfold PyStr.sorted.
  assert (G : forall acc, In y (fold_left (fun acc x => PyStr.insert_sorted x acc) l acc)
                          <-> In y acc \/ In y l).
  { induction l as [|x rest IH]; intros acc; simpl; [tauto|].
    rewrite IH, insert_sorted_In; intuition congruence. }
  rewrite G; simpl; tauto.
Qed.

(** The children printed below a node: its successors among the ancestors. *)
Lemma kids_of_spec : forall cg anc node k,
    In k (kids_of cg anc node) <->
    In (node, k) (DiGraph.edges (graph cg)) /\ In k anc.
Proof.
  intros cg anc node k; unfold kids_of.
  rewrite sorted_In, filter_In, successors_In, PyStrFacts.mem_In; reflexivity.
Qed.

Section Recurrence.

Variable cg : CallGraph.
Variable anc : list string.

(** A set of nodes each of which has a child in the set: the nodes of a
    cycle of ancestors, and those that lead to one. *)
Variable recurrent : string -> Prop.
Hypothesis recurrent_kid :
  forall n, recurrent n -> exists k, In k (kids_of cg anc n) /\ recurrent k.

(** From such a node the walk never comes back: whatever the number of
    frames, it ends in [RecursionError]. *)
Lemma walk_overflows : forall depth node prefix last out,
    recurrent node ->
    snd (walk cg depth anc node prefix last out) = inl RecursionError.
Proof.
  induction depth as [|d IH]; intros node prefix last out Hnode; [reflexivity|].
  rewrite walk_S; unfold bind at 1, lift.
  destruct (label_returns cg node) as [text ->].
  unfold bind at 1, print.
  destruct (recurrent_kid Hnode) as [k [Hk Hrk]].
  destruct (enumerate_from_In (kids_of cg anc node) 0 k Hk) as [j Hj].
  apply for_each_overflows with (x := (j, k)).
  - exact Hj.
  - intros [i y] out'; apply walk_returns_or_overflows.
  - intros out'; apply IH, Hrk.
Qed.

Lemma print_caller_tree_overflows : forall depth target tgt root out,
    matches cg target = [tgt] -> anc = ancestors cg tgt ->
    In root (roots_of cg anc) -> recurrent root ->
    snd (print_caller_tree cg depth target out) = inl RecursionError.
Proof.
  intros depth target tgt root out Hm Ha Hroot Hrec.
  unfold print_caller_tree; rewrite Hm, <- Ha.
  destruct (enumerate_from_In (roots_of cg anc) 0 root Hroot) as [j Hj].
  apply for_each_overflows with (x := (j, root)).
  - exact Hj.
  - intros [i y] out'; apply walk_returns_or_overflows.
  - intros out'; apply walk_overflows, Hrec.
Qed.

End Recurrence.

(** The ancestors of a node of a graph without dangling edges are the
    nodes from which a directed path leads to it, itself included. *)
Lemma ancestors_spec : forall cg tgt n,
    closed (graph cg) ->
    (In n (ancestors cg tgt) <->
     In n (DiGraph.nodes (graph cg)) /\ reaches (graph cg) n tgt).
Proof.
  intros cg tgt n Hc; unfold ancestors; rewrite filter_In; split.
  - intros [Hn Hp]; split; [exact Hn|].
    apply (@has_path_reaches _ n Hc Hn); exact Hp.
  - intros [Hn Hr]; split; [exact Hn|].
    apply (@has_path_reaches _ n Hc Hn); exact Hr.
Qed.

Section RecursiveTarget.

Let cg := Samples.recursive_cg.
Let anc := ["m.r"; "m.f"].

Lemma recursive_graph :
  graph cg = DiGraph.mk ["m.r"; "m.f"] [("m.r", "m.f"); ("m.f", "m.f")].
Proof. vm_compute; reflexivity. Qed.

Lemma recursive_ancestors :
  matches cg "f" = ["m.f"] /\ ancestors cg "m.f" = anc /\ roots_of cg anc = ["m.r"].
Proof. vm_compute; repeat split. Qed.

Lemma recursive_kids :
  kids_of cg anc "m.r" = ["m.f"] /\ kids_of cg anc "m.f" = ["m.f"].
Proof. vm_compute; split; reflexivity. Qed.

Lemma recursive_labels :
  label cg "m.r" = inr "r @ m.py:1" /\ label cg "m.f" = inr "f @ m.py:5".
Proof. vm_compute; split; reflexivity. Qed.

(** Below [m.f] the walk meets [m.f] again, one frame deeper each time:
    it prints one line per frame and ends in [RecursionError]. *)
Lemma walk_self_caller_overflows : forall depth prefix last out,
    exists printed,
      walk cg depth anc "m.f" prefix last out = (out ++ printed, inl RecursionError) /\
      List.length printed = depth.
Proof.
  induction depth as [|d IH]; intros prefix last out.
  - exists []; rewrite app_nil_r; split; reflexivity.
  - rewrite walk_S; unfold bind at 1, lift.
    rewrite (proj2 recursive_labels); unfold bind at 1, print.
    rewrite (proj2 recursive_kids); simpl for_each; unfold bind.
    match goal with
    | |- context [walk cg d anc "m.f" ?p ?l ?o] =>
        destruct (IH p l o) as [printed [Hw Hlen]]; rewrite Hw
    end.
    eexists; rewrite <- app_assoc; split; [reflexivity|].
    simpl; rewrite Hlen; reflexivity.
Qed.

Lemma walk_caller_overflows : forall depth out,
    exists printed,
      walk cg depth anc "m.r" EmptyString true out
      = (out ++ printed, inl RecursionError) /\
      List.length printed = depth.
Proof.
  intros [|d] out.
  - exists []; rewrite app_nil_r; split; reflexivity.
  - rewrite walk_S; unfold bind at 1, lift.
    rewrite (proj1 recursive_labels); unfold bind at 1, print.
    rewrite (proj1 recursive_kids); simpl for_each; unfold bind.
    match goal with
    | |- context [walk cg d anc "m.f" ?p ?l ?o] =>
        destruct (walk_self_caller_overflows d p l o) as [printed [Hw Hlen]];
          rewrite Hw
    end.
    eexists; rewrite <- app_assoc; split; [reflexivity|].
    simpl; rewrite Hlen; reflexivity.
Qed.

End RecursiveTarget.

(** C1, on a graph with a cycle among the ancestors of the target: in
    module [m], [def r(): f()] and [def f(): f()], target [f].  The
    ancestors are [m.r] and [m.f], the only root is [m.r], and [m.f] is its
    own successor.  However many frames the interpreter allows, the walk
    uses them all: it prints one line per frame and then raises
    [RecursionError].  No bound on the descent comes from the program. *)
Theorem print_caller_tree_descends_without_bound :
  forall depth,
    exists printed,
      print_caller_tree Samples.recursive_cg depth "f" []
      = (printed, inl RecursionError) /\
      List.length printed = depth.
Proof.
  intros depth; unfold print_caller_tree.
  destruct recursive_ancestors as (Hm & Ha & Hr); rewrite Hm, Ha, Hr.
  simpl for_each; unfold bind.
  destruct (walk_caller_overflows depth []) as [printed [Hw Hlen]].
  change (is_last_index 0 ["m.r"]) with true; simpl snd.
  rewrite Hw; exists printed; split; [reflexivity | exact Hlen].
Qed.

(** C5, on the input of C1: in module [m], [def r(): f()] and
    [def f(): f()], target [f].  Exactly one node matches, [m.f], and the
    printer does not call [sys.exit]; it goes on to print, and yet the
    process does not end with status 0: whatever the number of frames, the
    walk below [m.f] ends in [RecursionError], which nothing catches, and
    the interpreter exits with status 1. *)
Theorem one_match_yet_nonzero_status :
  matches Samples.recursive_cg "f" = ["m.f"] /\
  forall depth,
    (exists printed,
        print_caller_tree Samples.recursive_cg depth "f" []
        = (printed, inl RecursionError) /\
        List.length printed = depth) /\
    (forall arg, snd (print_caller_tree Samples.recursive_cg depth "f" [])
                 <> inl (SystemExit arg)) /\
    process_status (snd (print_caller_tree Samples.recursive_cg depth "f" [])) = 1%Z.
Proof.
  destruct recursive_ancestors as (Hm & Ha & Hr).
  split; [exact Hm|].
  intros depth.
  destruct (walk_caller_overflows depth []) as [printed [Hw Hlen]].
  assert (H : print_caller_tree Samples.recursive_cg depth "f" []
              = (printed, inl RecursionError)).
  { unfold print_caller_tree; rewrite Hm, Ha, Hr.
    simpl for_each; unfold bind.
    change (is_last_index 0 ["m.r"]) with true; simpl snd.
    rewrite Hw; reflexivity. }
  split; [exists printed; split; [exact H | exact Hlen]|]; split.
  - intros arg; rewrite H; discriminate.
  - rewrite H; reflexivity.
Qed.

(** Two functions that call each other and have no other caller: with one
    of them as the target, both are ancestors and neither is a root, so the
    printer returns without printing a line. *)
Lemma mutual_pair_prints_nothing :
  forall depth, print_caller_tree Samples.mutual_cg depth "b" [] = ([], inr tt).
Proof.
  intros depth; unfold print_caller_tree.
  assert (Hm : matches Samples.mutual_cg "b" = ["m.b"]) by (vm_compute; reflexivity).
  assert (Hr : roots_of Samples.mutual_cg (ancestors Samples.mutual_cg "m.b") = [])
    by (vm_compute; reflexivity).
  rewrite Hm, Hr; reflexivity.
Qed.

(* ================================================================== *)
(** * Further properties *)
(* ================================================================== *)

(** ** What [ast.walk] yields *)

Lemma size_positive : forall n, 1 <= size n.
Proof. intros n; rewrite size_children; lia. Qed.

Lemma below_children : forall t n,
    (exists stack, encloses t stack n) <->
    n = t \/ exists child, In child (iter_child_nodes t) /\
                           exists stack, encloses child stack n.
Proof.
  intros t n; split.
  - intros [stack H]; inversion H; subst.
    + left; reflexivity.
    + right; exists child; split; [assumption | eauto].
    + right; exists child; split; [assumption | eauto].
  - intros [-> | [child [Hin [stack H]]]].
    + exists []; constructor.
    + destruct t;
        try (exists stack; eapply enc_child; [discriminate | exact Hin | exact H]).
      exists (name :: stack); eapply enc_class; [exact Hin | exact H].
Qed.

(** With enough steps, the loop yields the queued trees and everything
    below them. *)
Lemma walk_queue_In : forall steps todo n,
    sizes todo <= steps ->
    (In n (walk_queue steps todo) <->
     exists t, In t todo /\ exists stack, encloses t stack n).
Proof.
  induction steps as [|k IH]; intros todo n Hle.
  - destruct todo as [|t rest].
    + simpl; split; [tauto | intros [t [[] _]]].
    + change (sizes (t :: rest)) with (size t + sizes rest) in Hle.
      pose proof (size_positive t); lia.
  - destruct todo as [|t rest]; simpl.
    + split; [tauto | intros [t [[] _]]].
    + change (sizes (t :: rest)) with (size t + sizes rest) in Hle.
      rewrite size_children in Hle.
      rewrite IH by (rewrite sizes_app; lia).
      split.
      * intros [<- | [t' [Hin Hb]]].
        -- exists t; split; [left; reflexivity | exists []; constructor].
        -- apply in_app_iff in Hin; destruct Hin as [Hin | Hin].
           ++ exists t'; split; [right; exact Hin | exact Hb].
           ++ exists t; split; [left; reflexivity|].
              apply below_children; right; exists t'; split; assumption.
      * intros [t' [[<- | Hin] Hb]].
        -- apply below_children in Hb; destruct Hb as [-> | [child [Hc Hb]]].
           ++ left; reflexivity.
           ++ right; exists child; split; [apply in_app_iff; right; exact Hc | exact Hb].
        -- right; exists t'; split; [apply in_app_iff; left; exact Hin | exact Hb].
Qed.

Lemma ast_walk_In : forall node n,
    In n (ast_walk node) <-> exists stack, encloses node stack n.
Proof.
  intros node n; unfold ast_walk.
  rewrite walk_queue_In by (unfold sizes; simpl; lia).
  split.
  - intros [t [[<- | []] H]]; exact H.
  - intros H; exists node; split; [left; reflexivity | exact H].
Qed.

(** ** The edges of the built graph *)

Lemma fold_left_edges :
  forall (A : Type) (f : DiGraph.t -> A -> DiGraph.t)
         (added : A -> string * string -> Prop),
    (forall g x e, In e (DiGraph.edges (f g x)) <->
                   In e (DiGraph.edges g) \/ added x e) ->
    forall l g e,
      In e (DiGraph.edges (fold_left f l g)) <->
      In e (DiGraph.edges g) \/ exists x, In x l /\ added x e.
Proof.
  intros A f added Hf l; induction l as [|x rest IH]; intros g e; simpl.
  - split; [tauto | intros [H | [x [[] _]]]; exact H].
  - rewrite IH, Hf; split.
    + intros [[H | H] | [y [Hy H]]]; eauto.
    + intros [H | [y [[<- | Hy] H]]]; eauto.
Qed.

Lemma In_edges_resolve_node : forall known caller g n e,
    In e (DiGraph.edges (resolve_node known caller g n)) <->
    In e (DiGraph.edges g) \/
    exists func args callee,
      n = Call func args /\
      In callee (surviving (caller_prefix_of caller)
                           (callee_candidates known (caller_prefix_of caller) func)) /\
      e = (caller, callee).
Proof.
  intros known caller g n e; destruct n;
    try (simpl; split; [tauto | intros [H | (f & a & c & Hn & _)]; [exact H | discriminate]]).
  unfold resolve_node; rewrite In_edges_link; split.
  - intros [H | [callee [Hc He]]]; [left; exact H | right].
    exists n, args, callee; repeat split; assumption.
  - intros [H | (f & a & callee & Hn & Hc & He)]; [left; exact H | right].
    inversion Hn; subst; exists callee; split; [exact Hc | reflexivity].
Qed.

Lemma In_edges_add_edges : forall known g e,
    In e (DiGraph.edges (add_edges known g)) <->
    In e (DiGraph.edges g) \/
    exists caller fnode func callee,
      In (caller, fnode) known /\ calls fnode func /\
      In callee (surviving (caller_prefix_of caller)
                           (callee_candidates known (caller_prefix_of caller) func)) /\
      e = (caller, callee).
Proof.
  intros known g e; unfold add_edges.
  rewrite (fold_left_edges (resolve_def known)
             (fun item e =>
                exists func callee,
                  calls (snd item) func /\
                  In callee (surviving (caller_prefix_of (fst item))
                               (callee_candidates known (caller_prefix_of (fst item)) func)) /\
                  e = (fst item, callee))).
  - split.
    + intros [H | [[caller fnode] [Hin (func & callee & H)]]]; [left; exact H | right].
      exists caller, fnode, func, callee; simpl in H; tauto.
    + intros [H | (caller & fnode & func & callee & Hin & H)]; [left; exact H | right].
      exists (caller, fnode); split; [exact Hin|]; exists func, callee; exact H.
  - intros g' [caller fnode] e'; unfold resolve_def; simpl.
    rewrite (fold_left_edges (resolve_node known caller)
               (fun n e =>
                  exists func args callee,
                    n = Call func args /\
                    In callee (surviving (caller_prefix_of caller)
                                 (callee_candidates known (caller_prefix_of caller) func)) /\
                    e = (caller, callee)))
      by (intros; apply In_edges_resolve_node).
    split.
    + intros [H | [n [Hn (func & args & callee & -> & Hc & He)]]]; [left; exact H | right].
      exists func, callee; split; [|split; assumption].
      apply ast_walk_In in Hn; destruct Hn as [stack Hn]; exists stack, args; exact Hn.
    + intros [H | (func & callee & [stack [args Hcall]] & Hc & He)]; [left; exact H | right].
      exists (Call func args); split; [apply ast_walk_In; eauto|].
      exists func, args, callee; repeat split; assumption.
Qed.

Lemma build_edge_intro : forall files rx u v fnode func,
    In (u, fnode) (defs (collect files rx)) -> calls fnode func ->
    In v (surviving (caller_prefix_of u)
                    (callee_candidates (defs (collect files rx))
                                       (caller_prefix_of u) func)) ->
    In (u, v) (DiGraph.edges (graph (build_call_graph files rx))).
Proof.
  intros files rx u v fnode func Hin Hc Hs; unfold build_call_graph; simpl.
  apply In_edges_add_edges; right.
  exists u, fnode, func, v; repeat split; assumption.
Qed.

(** X1: the edges of the built graph are exactly the resolved calls.
    There is an edge from [u] to [v] if and only if [u] is a key of the
    definitions map and, somewhere below the definition recorded for it
    (nested definitions included), there is a call one of whose surviving
    candidates is [v]. *)
Theorem build_call_graph_edges_are_resolved_calls :
  forall files rx_exclude u v,
    let known := defs (collect files rx_exclude) in
    In (u, v) (DiGraph.edges (graph (build_call_graph files rx_exclude))) <->
    exists fnode func,
      In (u, fnode) known /\ calls fnode func /\
      In v (surviving (caller_prefix_of u)
                      (callee_candidates known (caller_prefix_of u) func)).
Proof.
  intros files rx u v known; unfold build_call_graph; simpl.
  rewrite In_edges_add_edges, collect_closed; split.
  - intros [[] | (caller & fnode & func & callee & Hin & Hc & Hs & He)].
    inversion He; subst; exists fnode, func; repeat split; assumption.
  - intros (fnode & func & Hin & Hc & Hs); right.
    exists u, fnode, func, v; repeat split; assumption.
Qed.

(** ** Excluded files *)

(** X5: a file whose relative path matches the exclusion pattern is
    skipped whatever it holds: the build over a file list with such a
    file in it returns the graph and metadata of the build without it. *)
Theorem build_call_graph_skips_excluded_file :
  forall before skipped after rx_exclude,
    rx_exclude (rel skipped) = true ->
    build_call_graph (before ++ skipped :: after) rx_exclude =
    build_call_graph (before ++ after) rx_exclude.
Proof.
  intros before skipped after rx Hrx.
  assert (Hskip : forall b, collect_file rx b skipped = b)
    by (intros b; unfold collect_file; rewrite Hrx; reflexivity).
  unfold build_call_graph, collect.
  rewrite !fold_left_app; simpl; rewrite Hskip; reflexivity.
Qed.

Lemma build_call_graph_skips_excluded_file_witness :
  build_call_graph
    ([Samples.in_module_m Samples.method_src] ++ Samples.other_file :: [])
    (fun r => String.eqb r "pkg/n.py") =
  build_call_graph
    ([Samples.in_module_m Samples.method_src] ++ [])
    (fun r => String.eqb r "pkg/n.py").
Proof.
  apply (@build_call_graph_skips_excluded_file
           [Samples.in_module_m Samples.method_src] Samples.other_file []
           (fun r => String.eqb r "pkg/n.py")).
  reflexivity.
Defined.

(** ** Calls, end to end *)

(** X4: a method that calls [self.m2()] (or [cls.m2()]) is linked to the
    [m2] of its own scope.  If the definition recorded for the qualified
    name [module.stack.m1] contains such a call, nested definitions
    included, and a definition named [m2] exists in the same file under the
    same classes, the built graph has the edge from [module.stack.m1] to
    [module.stack.m2]. *)
Theorem self_call_links_sibling_method :
  forall files rx_exclude f tree stack sibling m1 m2 fnode receiver,
    let module := PyStr.join "." (module_parts f) in
    In f files -> rx_exclude (rel f) = false -> parsed f = Parsed tree ->
    encloses tree stack sibling -> def_name sibling = Some m2 ->
    dotless m1 = true ->
    Dict.get (defs (collect files rx_exclude)) (qualname module stack m1) = Some fnode ->
    calls fnode (Attribute (Name receiver) m2) ->
    receiver = "self" \/ receiver = "cls" ->
    In (qualname module stack m1, qualname module stack m2)
       (DiGraph.edges (graph (build_call_graph files rx_exclude))).
Proof.
  intros files rx f tree stack sibling m1 m2 fnode receiver module
         Hf Hrx Hp He Hd Hm1 Hget Hcall Hrecv.
  destruct (qualname_scope module stack) as [scope Hscope].
  assert (Hprefix : caller_prefix_of (qualname module stack m1) = scope)
    by (rewrite Hscope; apply caller_prefix_of_scoped, Hm1).
  assert (Hknown : Dict.mem (qualname module stack m2) (defs (collect files rx)) = true).
  { apply DictFacts.mem_In_keys.
    destruct (collect_consistent files rx) as (Hk & _ & _).
    rewrite <- Hk; apply collect_nodes.
    exists f, tree, stack, sibling, m2; repeat split; assumption. }
  apply build_edge_intro with (fnode := fnode) (func := Attribute (Name receiver) m2).
  - apply get_In_item, Hget.
  - exact Hcall.
  - rewrite Hprefix; unfold callee_candidates.
    rewrite (proj2 (is_self_or_cls_spec receiver) Hrecv).
    rewrite <- (Hscope m2), Hknown.
    unfold surviving; simpl.
    destruct (PyStr.startswith _ scope); left; reflexivity.
Qed.

Lemma self_call_links_sibling_method_witness :
  In ("m.Foo.m1", "m.Foo.m2")
     (DiGraph.edges
        (graph (build_call_graph [Samples.in_module_m Samples.method_src]
                                 Samples.no_exclude))).
Proof.
  refine (@self_call_links_sibling_method
            [Samples.in_module_m Samples.method_src] Samples.no_exclude
            (Samples.in_module_m Samples.method_src) Samples.method_src
            ["Foo"] (FunctionDef "m2" 5 [Other [Other []]; Other []]) "m1" "m2"
            (FunctionDef "m1" 2
               [Other [Other []]; Other [Call (Attribute (Name "self") "m2") []]])
            "self" _ _ _ _ _ _ _ _ _).
  - left; reflexivity.
  - reflexivity.
  - reflexivity.
  - eapply enc_child; [discriminate | left; reflexivity |].
    eapply enc_class; [right; left; reflexivity | constructor].
  - reflexivity.
  - reflexivity.
  - vm_compute; reflexivity.
  - exists [], [].
    eapply enc_child; [discriminate | right; left; reflexivity |].
    eapply enc_child; [discriminate | left; reflexivity | constructor].
  - left; reflexivity.
Defined.

(** X6: a call by bare name to a name that some discovered definition
    has is never dropped, in whichever file that definition is.  The
    caller gets an edge to a definition with that name; and when no
    definition with that name starts with the caller's prefix, it gets an
    edge to every one of them. *)
Theorem bare_call_links_known_name :
  forall files rx_exclude u fnode id q,
    let cg := build_call_graph files rx_exclude in
    In (u, fnode) (defs (collect files rx_exclude)) ->
    calls fnode (Name id) ->
    In q (DiGraph.nodes (graph cg)) ->
    (exists scope, q = (scope ++ "." ++ id)%string) ->
    (exists v scope, In (u, v) (DiGraph.edges (graph cg)) /\
                     v = (scope ++ "." ++ id)%string) /\
    ((forall c scope, In c (DiGraph.nodes (graph cg)) ->
                      c = (scope ++ "." ++ id)%string ->
                      PyStr.startswith c (caller_prefix_of u) = false) ->
     In (u, q) (DiGraph.edges (graph cg))).
Proof.
  intros files rx u fnode id q cg Hu Hcall Hq Hid.
  destruct (build_nodes files rx) as [Hn _].
  assert (Hcand : In q (trailing_matches (defs (collect files rx)) id))
    by (apply trailing_matches_spec; split; [rewrite <- Hn; exact Hq | exact Hid]).
  split.
  - destruct (surviving (caller_prefix_of u) (trailing_matches (defs (collect files rx)) id))
      as [|v rest] eqn:E.
    + elim (@surviving_not_nil (caller_prefix_of u) (trailing_matches (defs (collect files rx)) id));
        [intros H; rewrite H in Hcand; destruct Hcand | exact E].
    + assert (Hv : In v (surviving (caller_prefix_of u) (trailing_matches (defs (collect files rx)) id)))
        by (rewrite E; left; reflexivity).
      destruct (proj1 (trailing_matches_spec (defs (collect files rx)) id v) (surviving_incl _ _ _ Hv))
        as [_ [scope Hscope]].
      exists v, scope; split; [|exact Hscope].
      apply build_edge_intro with (fnode := fnode) (func := Name id); assumption.
  - intros Hfar.
    apply build_edge_intro with (fnode := fnode) (func := Name id);
      [exact Hu | exact Hcall |].
    simpl; rewrite surviving_spec.
    destruct (existsb (fun c => PyStr.startswith c (caller_prefix_of u))
                      (trailing_matches (defs (collect files rx)) id)) eqn:E; [|exact Hcand].
    apply existsb_exists in E; destruct E as [c [Hc Hstart]].
    apply trailing_matches_spec in Hc; destruct Hc as [Hc [scope Hscope]].
    rewrite (Hfar c scope) in Hstart; [discriminate | | exact Hscope].
    subst cg; rewrite Hn; exact Hc.
Qed.

Lemma bare_call_links_known_name_witness :
  In ("m.r", "m.f") (DiGraph.edges (graph Samples.recursive_cg)).
Proof.
  destruct (@bare_call_links_known_name
              [Samples.in_module_m Samples.recursive_src] Samples.no_exclude
              "m.r" (FunctionDef "r" 1 [Other []; Other [Call (Name "f") []]])
              "f" "m.f") as [(v & scope & Hv & Hs) _].
  - vm_compute; left; reflexivity.
  - exists [], [].
    eapply enc_child; [discriminate | right; left; reflexivity |].
    eapply enc_child; [discriminate | left; reflexivity | constructor].
  - vm_compute; right; left; reflexivity.
  - exists "m"; reflexivity.
  - vm_compute; left; reflexivity.
Defined.

(** ** Labels and lookup of discovered definitions *)

(** X7: the label of a node of the built graph shows the definition
    recorded for the node: a function definition of a scanned file (not
    excluded, parsed) that has the node's qualified name.  The label is
    that definition's own name, the path of that very file as the scan
    yielded it, and the line on which the definition starts.  (Names of
    definitions are identifiers: they hold no dot.) *)
Theorem label_of_built_node :
  forall files rx_exclude q,
    let cg := build_call_graph files rx_exclude in
    In q (DiGraph.nodes (graph cg)) ->
    exists d f tree stack name line,
      Dict.get (defs (collect files rx_exclude)) q = Some d /\
      In f files /\ rx_exclude (rel f) = false /\ parsed f = Parsed tree /\
      encloses tree stack d /\
      def_name d = Some name /\ def_lineno d = Some line /\
      q = qualname (PyStr.join "." (module_parts f)) stack name /\
      Dict.get (src cg) q = Some (path f) /\
      Dict.get (lines cg) q = Some line /\
      (dotless name = true ->
       label cg q =
       inr (name ++ " @ " ++ as_posix (path f) ++ ":" ++ PyStr.of_int line)%string).
Proof.
  intros files rx q cg Hq.
  destruct (build_nodes files rx) as [Hn _].
  subst cg; rewrite Hn in Hq.
  destruct (DictFacts.get_In _ _ Hq) as [d Hd].
  destruct (collect_recorded files rx q Hd)
    as (file & line & Hs & Hl & f & tree & stack & name & Hf & Hrx & Hp & He & Hname
        & Hline & -> & ->).
  exists d, f, tree, stack, name, line.
  repeat (split; [first [assumption | reflexivity]|]).
  intros Hdot.
  destruct (qualname_scope (PyStr.join "." (module_parts f)) stack) as [scope Hscope].
  unfold label, build_call_graph; simpl.
  rewrite Hs, Hl, Hscope, PyStrFacts.split_append_dot.
  rewrite (PyStrFacts.split_dotless_one _ Hdot), PyStrFacts.last_item_snoc.
  reflexivity.
Qed.

Lemma label_of_built_node_witness :
  exists d f tree stack name line,
    Dict.get (defs (collect [Samples.in_module_m Samples.recursive_src]
                            Samples.no_exclude)) "m.f" = Some d /\
    In f [Samples.in_module_m Samples.recursive_src] /\
    Samples.no_exclude (rel f) = false /\ parsed f = Parsed tree /\
    encloses tree stack d /\
    def_name d = Some name /\ def_lineno d = Some line /\
    "m.f" = qualname (PyStr.join "." (module_parts f)) stack name /\
    Dict.get (src Samples.recursive_cg) "m.f" = Some (path f) /\
    Dict.get (lines Samples.recursive_cg) "m.f" = Some line /\
    (dotless name = true ->
     label Samples.recursive_cg "m.f" =
     inr (name ++ " @ " ++ as_posix (path f) ++ ":" ++ PyStr.of_int line)%string).
Proof.
  apply (@label_of_built_node
           [Samples.in_module_m Samples.recursive_src] Samples.no_exclude "m.f").
  vm_compute; right; left; reflexivity.
Defined.

(** X8: every discovered definition can be looked up, by its bare name
    and by its qualified name: both match its node, so for neither does
    [print_caller_tree] exit with the not-found message. *)
Theorem discovered_definition_is_found :
  forall files rx_exclude f tree stack d name target depth out,
    let cg := build_call_graph files rx_exclude in
    let q := qualname (PyStr.join "." (module_parts f)) stack name in
    In f files -> rx_exclude (rel f) = false -> parsed f = Parsed tree ->
    encloses tree stack d -> def_name d = Some name ->
    target = name \/ target = q ->
    In q (matches cg target) /\
    snd (print_caller_tree cg depth target out) <>
    inl (SystemExit (ExitMessage ("✘ function '" ++ target ++ "' not found")%string)).
Proof.
  intros files rx f tree stack d name target depth out cg q Hf Hrx Hp He Hd Htarget.
  assert (Hq : In q (matches cg target)).
  { apply matches_spec; split.
    - apply (discovered_node files rx f Hf Hrx Hp He Hd).
    - destruct Htarget as [-> | ->]; [right | left; reflexivity].
      destruct (qualname_scope (PyStr.join "." (module_parts f)) stack) as [scope Hs].
      exists scope; apply Hs. }
  split; [exact Hq|].
  unfold print_caller_tree.
  destruct (matches cg target) as [|tgt [|other rest]] eqn:E.
  - destruct Hq.
  - intros H.
    destruct (@for_each_returns_or_overflows _
                (fun ir => walk cg depth (ancestors cg tgt) (snd ir) EmptyString
                             (is_last_index (fst ir) (roots_of cg (ancestors cg tgt))))
                (enumerate (roots_of cg (ancestors cg tgt)))
                (fun x o => walk_returns_or_overflows cg depth _ _ _ _ o) out)
      as [H' | H']; congruence.
  - unfold bind at 1, print at 1; unfold bind at 1.
    rewrite for_each_print; unfold bind, print, raise; simpl.
    discriminate.
Qed.

Lemma discovered_definition_is_found_witness :
  In "m.f" (matches Samples.recursive_cg "f").
Proof.
  refine (proj1 (@discovered_definition_is_found
                   [Samples.in_module_m Samples.recursive_src] Samples.no_exclude
                   (Samples.in_module_m Samples.recursive_src) Samples.recursive_src
                   [] (FunctionDef "f" 5 [Other []; Other [Call (Name "f") []]])
                   "f" "f" 0 [] _ _ _ _ _ _)).
  - left; reflexivity.
  - reflexivity.
  - reflexivity.
  - eapply enc_child; [discriminate | right; left; reflexivity | constructor].
  - reflexivity.
  - left; reflexivity.
Defined.

(** ** Ancestors and roots *)

Lemma predecessors_In : forall g n p,
    In p (DiGraph.predecessors g n) <-> In (p, n) (DiGraph.edges g).
Proof.
  intros g n p; unfold DiGraph.predecessors; rewrite in_map_iff; split.
  - intros [[a b] [Ha Hin]]; apply filter_In in Hin; destruct Hin as [Hin Hb].
    simpl in *; apply String.eqb_eq in Hb; subst; exact Hin.
  - intros H; exists (p, n); split; [reflexivity|].
    apply filter_In; split; [exact H | apply String.eqb_refl].
Qed.

Lemma roots_of_In : forall cg anc r,
    In r (roots_of cg anc) <->
    In r anc /\ forall p, In (p, r) (DiGraph.edges (graph cg)) -> ~ In p anc.
Proof.
  intros cg anc r; unfold roots_of; rewrite sorted_In, filter_In, negb_true_iff.
  split; intros [Hr H]; split; try exact Hr.
  - intros p Hp Hin.
    assert (existsb (fun p => PyStr.mem p anc)
                    (DiGraph.predecessors (graph cg) r) = true); [|congruence].
    apply existsb_exists; exists p; split;
      [apply predecessors_In; exact Hp | apply PyStrFacts.mem_In; exact Hin].
  - destruct (existsb _ (DiGraph.predecessors (graph cg) r)) eqn:E; [|reflexivity].
    apply existsb_exists in E; destruct E as [p [Hp Hin]].
    elim (H p); [apply predecessors_In; exact Hp | apply PyStrFacts.mem_In; exact Hin].
Qed.

(** X9: the ancestor set computed for a target is the target together
    with its transitive callers: in a graph without dangling edges, the
    nodes from which a directed path leads to the target, whatever its
    length. *)
Theorem ancestors_are_transitive_callers :
  forall cg tgt,
    closed (graph cg) -> In tgt (DiGraph.nodes (graph cg)) ->
    In tgt (ancestors cg tgt) /\
    (forall n, In n (ancestors cg tgt) <->
               In n (DiGraph.nodes (graph cg)) /\ reaches (graph cg) n tgt) /\
    (forall n m, In (n, m) (DiGraph.edges (graph cg)) ->
                 In m (ancestors cg tgt) -> In n (ancestors cg tgt)).
Proof.
  intros cg tgt Hc Htgt.
  assert (Hspec : forall n, In n (ancestors cg tgt) <->
                            In n (DiGraph.nodes (graph cg)) /\ reaches (graph cg) n tgt).
  { intros n; unfold ancestors; rewrite filter_In; split; intros [Hn H];
      (split; [exact Hn|]); apply (@has_path_reaches _ n Hc Hn); exact H. }
  split; [|split].
  - apply Hspec; split; [exact Htgt | constructor].
  - exact Hspec.
  - intros n m He Hm; apply Hspec in Hm; apply Hspec; split.
    + apply (Hc n m He).
    + eapply reaches_step; [exact He | apply Hm].
Qed.

Lemma ancestors_are_transitive_callers_witness :
  In "m.f" (ancestors Samples.recursive_cg "m.f").
Proof.
  destruct (@ancestors_are_transitive_callers Samples.recursive_cg "m.f") as [H _].
  - intros u v H; vm_compute in H.
    destruct H as [H | [H | []]]; inversion H; subst; vm_compute; tauto.
  - vm_compute; right; left; reflexivity.
  - exact H.
Defined.

(** X10: the roots printed at the top level are the ancestors that no
    ancestor calls; every other ancestor has a caller among the
    ancestors. *)
Theorem roots_are_uncalled_ancestors :
  forall cg anc,
    (forall r, In r (roots_of cg anc) <->
               In r anc /\
               forall p, In (p, r) (DiGraph.edges (graph cg)) -> ~ In p anc) /\
    (forall n, In n anc ->
               In n (roots_of cg anc) \/
               exists p, In (p, n) (DiGraph.edges (graph cg)) /\ In p anc).
Proof.
  intros cg anc; split; [apply roots_of_In|].
  intros n Hn.
  destruct (existsb (fun p => PyStr.mem p anc)
                    (DiGraph.predecessors (graph cg) n)) eqn:E.
  - right; apply existsb_exists in E; destruct E as [p [Hp Hin]].
    exists p; split; [apply predecessors_In; exact Hp | apply PyStrFacts.mem_In; exact Hin].
  - left; unfold roots_of; apply sorted_In, filter_In; split; [exact Hn|].
    rewrite E; reflexivity.
Qed.

Lemma roots_are_uncalled_ancestors_witness :
  In "m.r" (roots_of Samples.recursive_cg ["m.r"; "m.f"]).
Proof.
  destruct (roots_are_uncalled_ancestors Samples.recursive_cg ["m.r"; "m.f"])
    as [Hroots _].
  apply Hroots; split; [left; reflexivity|].
  intros p H; vm_compute in H.
  destruct H as [H | [H | []]]; inversion H.
Defined.

(** ** Order of the printed siblings *)

Lemma ltb_asym : forall x y, String.ltb x y = true -> String.ltb y x = false.
Proof.
  intros x y; unfold String.ltb; rewrite (String.compare_antisym x y).
  destruct (String.compare y x); simpl; congruence.
Qed.

Lemma insert_sorted_ascending : forall x l,
    ascending l -> ascending (PyStr.insert_sorted x l).
Proof.
  unfold ascending; intros x l; induction l as [|y rest IH]; intros Hl; simpl.
  - repeat constructor.
  - destruct (String.ltb x y) eqn:E.
    + constructor; [exact Hl | constructor; apply ltb_asym, E].
    + inversion Hl as [|? ? Hrest Hhd]; subst.
      constructor; [apply IH, Hrest|].
      destruct rest as [|z r]; simpl; [constructor; exact E|].
      destruct (String.ltb x z); constructor; [exact E|].
      inversion Hhd; assumption.
Qed.

Lemma insert_sorted_Permutation : forall x l,
    Permutation (x :: l) (PyStr.insert_sorted x l).
Proof.
  intros x l; induction l as [|y rest IH]; simpl; [reflexivity|].
  destruct (String.ltb x y); [reflexivity|].
  rewrite perm_swap; constructor; exact IH.
Qed.

Lemma sorted_ascending_Permutation : forall l,
    ascending (PyStr.sorted l) /\ Permutation l (PyStr.sorted l).
Proof.
  intros l; unfold PyStr.sorted.
  assert (G : forall acc, ascending acc ->
                          ascending (fold_left (fun acc x => PyStr.insert_sorted x acc) l acc) /\
                          Permutation (acc ++ l)
                            (fold_left (fun acc x => PyStr.insert_sorted x acc) l acc)).
  { induction l as [|x rest IH]; intros acc Hacc; simpl.
    - rewrite app_nil_r; split; [exact Hacc | reflexivity].
    - destruct (IH (PyStr.insert_sorted x acc) (insert_sorted_ascending x Hacc))
        as [Hs Hp].
      split; [exact Hs|].
      rewrite <- Hp, <- (insert_sorted_Permutation x acc).
      symmetry; apply Permutation_middle. }
  destruct (G [] (Sorted_nil _)) as [Hs Hp]; split; assumption.
Qed.

(** ** When the walk returns *)

Lemma enumerate_from_item : forall (A : Type) (xs : list A) i j x,
    In (j, x) (enumerate_from i xs) -> In x xs.
Proof.
  intros A xs; induction xs as [|y rest IH]; intros i j x H; [destruct H|].
  destruct H as [H | H]; [inversion H; left; reflexivity | right; eapply IH, H].
Qed.

Lemma for_each_returns : forall (A : Type) (body : A -> Py unit) xs,
    (forall x out, In x xs -> snd (body x out) = inr tt) ->
    forall out, snd (for_each xs body out) = inr tt.
Proof.
  intros A body xs; induction xs as [|x rest IH]; intros Hbody out; [reflexivity|].
  simpl; unfold bind.
  pose proof (Hbody x out (or_introl eq_refl)) as Hx.
  destruct (body x out) as [out' [e | []]]; simpl in Hx; [discriminate|].
  apply IH; intros y o Hy; apply Hbody; right; exact Hy.
Qed.

Section Ranked.

Variable cg : CallGraph.
Variable anc : list string.

(** A measure that drops along every edge into an ancestor; a cycle
    through the ancestors rules such a measure out. *)
Variable rank : string -> nat.
Hypothesis rank_drops :
  forall n k, In (n, k) (DiGraph.edges (graph cg)) -> In k anc -> rank k < rank n.

Lemma walk_returns : forall depth node prefix last out,
    rank node < depth -> snd (walk cg depth anc node prefix last out) = inr tt.
Proof.
  induction depth as [|d IH]; intros node prefix last out Hrank; [lia|].
  rewrite walk_S; unfold bind at 1, lift.
  destruct (label_returns cg node) as [text ->].
  unfold bind at 1, print.
  apply for_each_returns; intros [i k] out' Hin; simpl.
  apply IH.
  apply enumerate_from_item, kids_of_spec in Hin; destruct Hin as [He Hk].
  pose proof (rank_drops _ _ He Hk); lia.
Qed.

End Ranked.

(** X12: without a cycle among the ancestors the printer returns.  If
    the target matches one node and some measure drops along every edge
    that leads into an ancestor, then with more frames than the measure of
    any root [print_caller_tree] returns normally. *)
Theorem print_caller_tree_returns_without_cycle :
  forall cg target tgt (rank : string -> nat) depth out,
    matches cg target = [tgt] ->
    (forall n k, In (n, k) (DiGraph.edges (graph cg)) ->
                 In k (ancestors cg tgt) -> rank k < rank n) ->
    (forall r, In r (roots_of cg (ancestors cg tgt)) -> rank r < depth) ->
    snd (print_caller_tree cg depth target out) = inr tt.
Proof.
  intros cg target tgt rank depth out Hm Hrank Hroots.
  unfold print_caller_tree; rewrite Hm.
  apply for_each_returns; intros [i r] out' Hin; simpl.
  apply walk_returns with (rank := rank); [exact Hrank|].
  apply Hroots; eapply enumerate_from_item; exact Hin.
Qed.

Lemma print_caller_tree_returns_without_cycle_witness :
  snd (print_caller_tree
         (build_call_graph [Samples.in_module_m Samples.method_src] Samples.no_exclude)
         4 "m2" []) = inr tt.
Proof.
  apply (@print_caller_tree_returns_without_cycle
           (build_call_graph [Samples.in_module_m Samples.method_src] Samples.no_exclude)
           "m2" "m.Foo.m2"
           (fun n => if String.eqb n "m.Foo.m1" then 1 else 0) 4 []).
  - vm_compute; reflexivity.
  - intros n k H _; vm_compute in H.
    destruct H as [H | []]; inversion H; subst; vm_compute; lia.
  - intros r H; vm_compute in H.
    destruct H as [<- | []]; vm_compute; lia.
Defined.

(** X13: when every ancestor of the target, the target included, is
    called by some ancestor, there is no root, and [print_caller_tree]
    returns without printing a line, not even one for the target. *)
Theorem print_caller_tree_silent_without_root :
  forall cg target tgt depth out,
    matches cg target = [tgt] ->
    (forall n, In n (ancestors cg tgt) ->
               exists p, In (p, n) (DiGraph.edges (graph cg)) /\
                         In p (ancestors cg tgt)) ->
    print_caller_tree cg depth target out = (out, inr tt).
Proof.
  intros cg target tgt depth out Hm Hcalled.
  assert (Hroots : roots_of cg (ancestors cg tgt) = []).
  { destruct (roots_of cg (ancestors cg tgt)) as [|r rest] eqn:E; [reflexivity|].
    assert (Hr : In r (roots_of cg (ancestors cg tgt))) by (rewrite E; left; reflexivity).
    apply roots_of_In in Hr; destruct Hr as [Hr Hnone].
    destruct (Hcalled r Hr) as [p [Hp Hin]]; elim (Hnone p Hp Hin). }
  unfold print_caller_tree; rewrite Hm, Hroots; reflexivity.
Qed.

Lemma print_caller_tree_silent_without_root_witness :
  print_caller_tree Samples.mutual_cg 4 "b" [] = ([], inr tt).
Proof.
  apply (@print_caller_tree_silent_without_root Samples.mutual_cg "b" "m.b" 4 []).
  - vm_compute; reflexivity.
  - intros n H; vm_compute in H.
    destruct H as [<- | [<- | []]].
    + exists "m.b"; vm_compute; tauto.
    + exists "m.a"; vm_compute; tauto.
Defined.

(** ** Shape of the printed tree *)

Lemma for_each_appends : forall (A : Type) (body : A -> Py unit) (Q : string -> Prop) xs,
    (forall x out, exists printed,
          fst (body x out) = out ++ printed /\ Forall Q printed) ->
    forall out, exists printed,
        fst (for_each xs body out) = out ++ printed /\ Forall Q printed.
Proof.
  intros A body Q xs Hbody; induction xs as [|x rest IH]; intros out.
  - exists []; rewrite app_nil_r; split; [reflexivity | constructor].
  - simpl; unfold bind.
    destruct (Hbody x out) as [p1 [H1 Q1]].
    destruct (body x out) as [out' [e | u]]; simpl in H1; subst out'.
    + exists p1; split; [reflexivity | exact Q1].
    + destruct (IH (out ++ p1)) as [p2 [H2 Q2]].
      exists (p1 ++ p2); rewrite H2, <- app_assoc; split; [reflexivity|].
      apply Forall_app; split; assumption.
Qed.

Lemma walk_prefixed : forall cg depth anc node prefix last out,
    exists printed,
      fst (walk cg depth anc node prefix last out) = out ++ printed /\
      Forall (fun line => PyStr.startswith line prefix = true) printed.
Proof.
  intros cg depth anc; induction depth as [|d IH]; intros node prefix last out.
  - exists []; rewrite app_nil_r; split; [reflexivity | constructor].
  - rewrite walk_S; unfold bind at 1, lift.
    destruct (label_returns cg node) as [text ->].
    unfold bind at 1, print.
    destruct (@for_each_appends _
                (fun ik => walk cg d anc (snd ik)
                             (prefix ++ (if last then "    " else "│   "))%string
                             (is_last_index (fst ik) (kids_of cg anc node)))
                (fun line => PyStr.startswith line prefix = true)
                (enumerate (kids_of cg anc node)))
      with (out := out ++ [(prefix ++ (if last then "└── " else "├── ") ++ text)%string])
      as [below [Hb Qb]].
    + intros [i k] o; simpl.
      destruct (IH k (prefix ++ (if last then "    " else "│   "))%string
                   (is_last_index i (kids_of cg anc node)) o) as [p [Hp Qp]].
      exists p; split; [exact Hp|].
      eapply Forall_impl; [|exact Qp].
      intros line Hline; apply PyStrFacts.startswith_spec in Hline.
      destruct Hline as [rest ->]; apply PyStrFacts.startswith_spec.
      eexists; apply PyStrFacts.append_assoc.
    + rewrite Hb, <- app_assoc; eexists; split; [reflexivity|].
      constructor; [|exact Qb].
      apply PyStrFacts.startswith_spec; eexists; reflexivity.
Qed.

(** X14: the subtree of a node is printed right below it, one level
    deeper.  A walk with at least one frame first prints the node's own
    line (prefix, connector, label); every line it prints after that, up
    to its return or failure, starts with the prefix followed by the
    continuation, four spaces below a last sibling and a bar with three
    spaces below any other. *)
Theorem walk_prints_node_then_indented_subtree :
  forall cg depth anc node prefix last out,
    exists text below,
      label cg node = inr text /\
      fst (walk cg (S depth) anc node prefix last out)
      = out ++ (prefix ++ (if last then "└── " else "├── ") ++ text)%string :: below /\
      Forall (fun line =>
                PyStr.startswith line
                  (prefix ++ (if last then "    " else "│   "))%string = true)
             below.
Proof.
  intros cg depth anc node prefix last out.
  destruct (label_returns cg node) as [text Htext].
  rewrite walk_S; unfold bind at 1, lift; rewrite Htext.
  unfold bind at 1, print.
  destruct (@for_each_appends _
              (fun ik => walk cg depth anc (snd ik)
                           (prefix ++ (if last then "    " else "│   "))%string
                           (is_last_index (fst ik) (kids_of cg anc node)))
              (fun line => PyStr.startswith line
                             (prefix ++ (if last then "    " else "│   "))%string = true)
              (enumerate (kids_of cg anc node)))
    with (out := out ++ [(prefix ++ (if last then "└── " else "├── ") ++ text)%string])
    as [below [Hb Qb]].
  - intros [i k] o; apply walk_prefixed.
  - exists text, below; split; [reflexivity|]; split; [|exact Qb].
    rewrite Hb, <- app_assoc; reflexivity.
Qed.

(** ** Order of the printed lines *)

Lemma for_each_blocks :
  forall (A : Type) (body : A -> Py unit) (Q : A -> list string -> Prop) xs,
    (forall x out out', body x out = (out', inr tt) ->
                        exists block, out' = out ++ block /\ Q x block) ->
    forall out out',
      for_each xs body out = (out', inr tt) ->
      exists blocks, out' = out ++ List.concat blocks /\ Forall2 Q xs blocks.
Proof.
  intros A body Q xs Hbody; induction xs as [|x rest IH]; intros out out' H.
  - inversion H; exists []; rewrite app_nil_r; split; [reflexivity | constructor].
  - simpl in H; unfold bind in H.
    destruct (body x out) as [o1 [e | []]] eqn:E; [discriminate|].
    destruct (Hbody x out o1 E) as [block [-> Hblock]].
    destruct (IH _ _ H) as [blocks [-> Hblocks]].
    exists (block :: blocks); simpl; rewrite <- app_assoc; split; [reflexivity|].
    constructor; assumption.
Qed.

Lemma Forall2_enumerate_from :
  forall (A B : Type) (Q : A -> B -> Prop) (xs : list A) i blocks,
    Forall2 (fun ix b => Q (snd ix) b) (enumerate_from i xs) blocks ->
    Forall2 Q xs blocks.
Proof.
  intros A B Q xs; induction xs as [|x rest IH]; intros i blocks H.
  - inversion H; constructor.
  - simpl in H; inversion H; subst; constructor; [assumption | eapply IH; eassumption].
Qed.

(** A walk that returns has printed the line of its node, then one block
    of lines for each child, in the order of the children. *)
Lemma walk_blocks : forall cg depth anc node prefix last out out',
    walk cg depth anc node prefix last out = (out', inr tt) ->
    exists text blocks,
      label cg node = inr text /\
      out' = out ++ (prefix ++ (if last then "└── " else "├── ") ++ text)%string
                 :: List.concat blocks /\
      Forall2 (block_of cg (prefix ++ (if last then "    " else "│   "))%string)
              (kids_of cg anc node) blocks.
Proof.
  intros cg depth anc; induction depth as [|d IH];
    intros node prefix last out out' H; [discriminate|].
  rewrite walk_S in H; unfold bind at 1, lift in H.
  destruct (label_returns cg node) as [text Htext]; rewrite Htext in H.
  unfold bind at 1, print in H.
  apply for_each_blocks
    with (Q := fun ik block =>
                 block_of cg (prefix ++ (if last then "    " else "│   "))%string
                          (snd ik) block) in H.
  - destruct H as [blocks [-> Hblocks]].
    exists text, blocks; split; [exact Htext|]; split.
    + rewrite <- app_assoc; reflexivity.
    + eapply Forall2_enumerate_from; exact Hblocks.
  - intros [i k] o o' Hk; simpl in Hk.
    destruct (IH _ _ _ _ _ Hk) as (t & bs & Ht & -> & _).
    eexists; split; [reflexivity|].
    exists (if is_last_index i (kids_of cg anc node) then "└── " else "├── "), t,
      (List.concat bs).
    split; [destruct (is_last_index i (kids_of cg anc node)); tauto|].
    split; [exact Ht | reflexivity].
Qed.

(** X11: siblings are printed in ascending order.  A walk that returns
    has printed the line of its node followed by one block of lines per
    child, each block beginning with the line of that child one level
    deeper, and the blocks follow each other in ascending order of the
    children's qualified names.  Likewise [print_caller_tree], when one
    node matches and it returns, has printed one block per root, in
    ascending order of the roots. *)
Theorem printed_siblings_ascending :
  forall cg,
    (forall depth anc node prefix last out out',
        walk cg depth anc node prefix last out = (out', inr tt) ->
        exists text blocks,
          label cg node = inr text /\
          out' = out ++ (prefix ++ (if last then "└── " else "├── ") ++ text)%string
                     :: List.concat blocks /\
          Forall2 (block_of cg (prefix ++ (if last then "    " else "│   "))%string)
                  (kids_of cg anc node) blocks /\
          ascending (kids_of cg anc node) /\
          forall k, In k (kids_of cg anc node) <->
                    In (node, k) (DiGraph.edges (graph cg)) /\ In k anc) /\
    (forall depth target tgt out out',
        matches cg target = [tgt] ->
        print_caller_tree cg depth target out = (out', inr tt) ->
        exists blocks,
          out' = out ++ List.concat blocks /\
          Forall2 (block_of cg EmptyString) (roots_of cg (ancestors cg tgt)) blocks /\
          ascending (roots_of cg (ancestors cg tgt))).
Proof.
  intros cg; split.
  - intros depth anc node prefix last out out' H.
    destruct (walk_blocks _ _ _ _ _ _ _ H) as (text & blocks & Ht & Hout & Hb).
    exists text, blocks.
    split; [exact Ht|]; split; [exact Hout|]; split; [exact Hb|]; split.
    + unfold kids_of; apply sorted_ascending_Permutation.
    + intros k; apply kids_of_spec.
  - intros depth target tgt out out' Hm H.
    unfold print_caller_tree in H; rewrite Hm in H.
    apply for_each_blocks
      with (Q := fun ir block => block_of cg EmptyString (snd ir) block) in H.
    + destruct H as [blocks [-> Hblocks]].
      exists blocks; split; [reflexivity|]; split.
      * eapply Forall2_enumerate_from; exact Hblocks.
      * unfold roots_of; apply sorted_ascending_Permutation.
    + intros [i r] o o' Hr; simpl in Hr.
      destruct (walk_blocks _ _ _ _ _ _ _ Hr) as (t & bs & Ht & -> & _).
      eexists; split; [reflexivity|].
      exists (if is_last_index i (roots_of cg (ancestors cg tgt))
              then "└── " else "├── "), t, (List.concat bs).
      split; [destruct (is_last_index i (roots_of cg (ancestors cg tgt))); tauto|].
      split; [exact Ht | reflexivity].
Qed.

Lemma printed_siblings_ascending_witness :
  exists blocks,
    fst (print_caller_tree
           (build_call_graph [Samples.in_module_m Samples.method_src] Samples.no_exclude)
           4 "m2" [])
    = [] ++ List.concat blocks /\
    Forall2
      (block_of
         (build_call_graph [Samples.in_module_m Samples.method_src] Samples.no_exclude)
         EmptyString)
      (roots_of
         (build_call_graph [Samples.in_module_m Samples.method_src] Samples.no_exclude)
         (ancestors
            (build_call_graph [Samples.in_module_m Samples.method_src] Samples.no_exclude)
            "m.Foo.m2"))
      blocks /\
    ascending
      (roots_of
         (build_call_graph [Samples.in_module_m Samples.method_src] Samples.no_exclude)
         (ancestors
            (build_call_graph [Samples.in_module_m Samples.method_src] Samples.no_exclude)
            "m.Foo.m2")).
Proof.
  destruct (printed_siblings_ascending
              (build_call_graph [Samples.in_module_m Samples.method_src]
                                Samples.no_exclude)) as [_ Htop].
  apply (Htop 4 "m2" "m.Foo.m2" []).
  - vm_compute; reflexivity.
  - vm_compute; reflexivity.
Defined.

(** ** More about [filtered] *)

Lemma filter_all_In : forall (A : Type) (f : A -> bool) l,
    (forall x, In x l -> f x = true) -> filter f l = l.
Proof.
  intros A f l; induction l as [|x rest IH]; intros H; simpl; [reflexivity|].
  rewrite (H x (or_introl eq_refl)), IH; [reflexivity|].
  intros y Hy; apply H; right; exact Hy.
Qed.

Lemma filter_none_In : forall (A : Type) (f : A -> bool) l,
    (forall x, In x l -> f x = false) -> filter f l = [].
Proof.
  intros A f l; induction l as [|x rest IH]; intros H; simpl; [reflexivity|].
  rewrite (H x (or_introl eq_refl)); apply IH.
  intros y Hy; apply H; right; exact Hy.
Qed.

Lemma filter_narrow : forall (A : Type) (f g : A -> bool) l,
    (forall x, f x = true -> g x = true) -> filter f (filter g l) = filter f l.
Proof.
  intros A f g l H; induction l as [|x rest IH]; simpl; [reflexivity|].
  destruct (g x) eqn:Eg; simpl; rewrite IH; [reflexivity|].
  destruct (f x) eqn:Ef; [|reflexivity].
  rewrite (H x Ef) in Eg; discriminate.
Qed.

Lemma filter_both : forall (A : Type) (f g : A -> bool) l,
    filter g (filter f l) = filter (fun x => f x && g x) l.
Proof.
  intros A f g l; induction l as [|x rest IH]; simpl; [reflexivity|].
  destruct (f x); simpl; rewrite IH; reflexivity.
Qed.

Lemma filtered_nodes : forall cg pattern,
    DiGraph.nodes (graph (filtered cg pattern))
    = filter pattern (DiGraph.nodes (graph cg)).
Proof. intros cg pattern; apply subgraph_nodes_filter. Qed.

(** X15: filtering twice is filtering once by both patterns.  The two
    results have the same nodes and the same edges, and their metadata
    maps answer every lookup alike. *)
Theorem filtered_twice :
  forall cg first second,
    let twice := filtered (filtered cg first) second in
    let once := filtered cg (fun n => first n && second n) in
    (forall n, In n (DiGraph.nodes (graph twice)) <->
               In n (DiGraph.nodes (graph once))) /\
    (forall n, In n (DiGraph.nodes (graph twice)) <->
               In n (DiGraph.nodes (graph cg)) /\ first n = true /\ second n = true) /\
    (forall e, In e (DiGraph.edges (graph twice)) <->
               In e (DiGraph.edges (graph once))) /\
    (forall k, Dict.get (src twice) k = Dict.get (src once) k) /\
    (forall k, Dict.get (lines twice) k = Dict.get (lines once) k).
Proof.
  intros cg p q twice once.
  assert (Hkeep : filter q (DiGraph.nodes (graph (filtered cg p)))
                  = filter (fun n => p n && q n) (DiGraph.nodes (graph cg))).
  { rewrite filtered_nodes; apply filter_both. }
  assert (Hsub : forall n,
             PyStr.mem n (filter (fun n => p n && q n) (DiGraph.nodes (graph cg))) = true ->
             PyStr.mem n (filter p (DiGraph.nodes (graph cg))) = true).
  { intros n H; apply PyStrFacts.mem_In; apply PyStrFacts.mem_In in H.
    apply filter_In in H; destruct H as [Hn Hpq].
    apply andb_true_iff in Hpq; apply filter_In; tauto. }
  assert (Hnodes : forall n, In n (DiGraph.nodes (graph twice)) <->
                             In n (DiGraph.nodes (graph once))).
  { intros n; subst twice once.
    rewrite (filtered_nodes (filtered cg p) q), Hkeep, filtered_nodes; reflexivity. }
  assert (Htwice :
            twice = mkCallGraph
                      (DiGraph.subgraph
                         (DiGraph.subgraph (graph cg) (filter p (DiGraph.nodes (graph cg))))
                         (filter (fun n => p n && q n) (DiGraph.nodes (graph cg))))
                      (Dict.restrict
                         (fun k => PyStr.mem k (filter (fun n => p n && q n)
                                                       (DiGraph.nodes (graph cg))))
                         (Dict.restrict
                            (fun k => PyStr.mem k (filter p (DiGraph.nodes (graph cg))))
                            (src cg)))
                      (Dict.restrict
                         (fun k => PyStr.mem k (filter (fun n => p n && q n)
                                                       (DiGraph.nodes (graph cg))))
                         (Dict.restrict
                            (fun k => PyStr.mem k (filter p (DiGraph.nodes (graph cg))))
                            (lines cg)))).
  { subst twice; unfold filtered at 1; rewrite Hkeep; reflexivity. }
  split; [exact Hnodes|]; split; [|split; [|split]].
  - intros n; rewrite Hnodes; subst once; rewrite filtered_nodes, filter_In.
    rewrite andb_true_iff; reflexivity.
  - intros [u v]; rewrite Htwice; subst once; unfold filtered, DiGraph.subgraph.
    cbn [graph DiGraph.edges]; rewrite !filter_In; cbn [fst snd].
    split; [tauto|].
    intros [He Hk]; repeat split; try assumption.
    apply andb_true_iff in Hk; destruct Hk as [Hu Hv].
    rewrite (Hsub _ Hu), (Hsub _ Hv); reflexivity.
  - intros k; rewrite Htwice; subst once; unfold filtered; cbn [src].
    rewrite !DictFacts.get_restrict.
    destruct (PyStr.mem k (filter (fun n => p n && q n) (DiGraph.nodes (graph cg))))
      eqn:E; [rewrite (Hsub _ E)|]; reflexivity.
  - intros k; rewrite Htwice; subst once; unfold filtered; cbn [lines].
    rewrite !DictFacts.get_restrict.
    destruct (PyStr.mem k (filter (fun n => p n && q n) (DiGraph.nodes (graph cg))))
      eqn:E; [rewrite (Hsub _ E)|]; reflexivity.
Qed.

(** X16: a pattern that every node matches changes nothing: on the
    result of [build_call_graph], [filtered] then returns an equal graph
    with equal metadata. *)
Theorem filtered_by_matching_all :
  forall files rx_exclude pattern,
    let cg := build_call_graph files rx_exclude in
    (forall n, In n (DiGraph.nodes (graph cg)) -> pattern n = true) ->
    filtered cg pattern = cg.
Proof.
  intros files rx pattern cg Hall.
  destruct (build_nodes files rx) as [Hn Hc].
  destruct (collect_consistent files rx) as (_ & Hs & Hl).
  change (build_call_graph files rx) with cg in Hn, Hc.
  change (src_map (collect files rx)) with (src cg) in Hs.
  change (line_map (collect files rx)) with (lines cg) in Hl.
  rewrite <- Hn in Hs, Hl; clear Hn; clearbody cg.
  assert (Hkeep : filter pattern (DiGraph.nodes (graph cg)) = DiGraph.nodes (graph cg))
    by (apply filter_all_In; exact Hall).
  assert (Hnodes : filter (fun n => PyStr.mem n (DiGraph.nodes (graph cg)))
                          (DiGraph.nodes (graph cg)) = DiGraph.nodes (graph cg)).
  { apply filter_all_In; intros n Hin; apply PyStrFacts.mem_In; exact Hin. }
  assert (Hedges : filter (fun e => PyStr.mem (fst e) (DiGraph.nodes (graph cg))
                                    && PyStr.mem (snd e) (DiGraph.nodes (graph cg)))
                          (DiGraph.edges (graph cg)) = DiGraph.edges (graph cg)).
  { apply filter_all_In; intros [u v] Hin; simpl.
    destruct (Hc u v Hin) as [Hu Hv].
    apply PyStrFacts.mem_In in Hu, Hv; rewrite Hu, Hv; reflexivity. }
  assert (Hsrc : filter (fun kv : string * Path =>
                           PyStr.mem (fst kv) (DiGraph.nodes (graph cg)))
                        (src cg) = src cg).
  { apply filter_all_In; intros [k v] Hin; simpl; apply PyStrFacts.mem_In.
    rewrite <- Hs; apply (in_map fst) in Hin; exact Hin. }
  assert (Hlines : filter (fun kv : string * Z =>
                             PyStr.mem (fst kv) (DiGraph.nodes (graph cg)))
                          (lines cg) = lines cg).
  { apply filter_all_In; intros [k v] Hin; simpl; apply PyStrFacts.mem_In.
    rewrite <- Hl; apply (in_map fst) in Hin; exact Hin. }
  unfold filtered; rewrite Hkeep.
  unfold DiGraph.subgraph, Dict.restrict.
  rewrite Hnodes, Hedges, Hsrc, Hlines.
  destruct cg as [[nodes edges] s l]; reflexivity.
Qed.

Lemma filtered_by_matching_all_witness :
  filtered Samples.recursive_cg (fun _ => true) = Samples.recursive_cg.
Proof.
  apply (@filtered_by_matching_all
           [Samples.in_module_m Samples.recursive_src] Samples.no_exclude
           (fun _ => true)).
  intros n _; reflexivity.
Defined.

(** ** The command line *)

Lemma matches_none : forall cg target,
    (forall n, In n (DiGraph.nodes (graph cg)) ->
               n <> target /\ forall scope, n <> (scope ++ "." ++ target)%string) ->
    matches cg target = [].
Proof.
  intros cg target H; unfold matches; apply filter_none_In; intros n Hn.
  destruct (H n Hn) as [Hne Hscope].
  apply orb_false_iff; split.
  - destruct (PyStr.endswith n ("." ++ target)) eqn:E; [|reflexivity].
    apply PyStrFacts.endswith_spec in E; destruct E as [scope E].
    elim (Hscope scope E).
  - apply String.eqb_neq; exact Hne.
Qed.

Lemma build_node_discovered : forall files rx q,
    In q (DiGraph.nodes (graph (build_call_graph files rx))) -> discovered files rx q.
Proof.
  intros files rx q Hq.
  destruct (build_nodes files rx) as [Hn _].
  destruct (collect_consistent files rx) as (Hk & _ & _).
  rewrite Hn, <- Hk in Hq; apply collect_nodes; exact Hq.
Qed.

(** X17: when the exclusion pattern compiles, [main] ends in one of two
    ways here.  If an exception escapes the build, it escapes [main] as
    well.  If every path that raises is excluded, the build returns; then
    [main] ends with the not-found message, having printed nothing,
    whenever no definition that is discovered under the root and kept by
    [--only] is called like the requested function, qualified or bare.
    Here [keep] is the compiled [--only] pattern, or the pattern that
    keeps everything when the option is absent or empty. *)
Theorem main_reports_unknown_function :
  forall re_compile rglob args depth rx,
    re_compile (exclude args) = Some rx ->
    (forall e,
        build_call_graph_or_raise (rglob (root args)) rx = inl e ->
        main re_compile rglob args depth = Traceback e) /\
    (forall keep,
        match only args with
        | Some (String c p) => re_compile (String c p) = Some keep
        | _ => keep = fun _ => true
        end ->
        (forall r e, In (Escapes r e) (rglob (root args)) -> rx r = true) ->
        (forall q, discovered (processed (rglob (root args))) rx q -> keep q = true ->
                   q <> function args /\
                   forall scope, q <> (scope ++ "." ++ function args)%string) ->
        main re_compile rglob args depth
        = Ran ([], inl (SystemExit
                          (ExitMessage
                             ("✘ function '" ++ function args ++ "' not found")%string)))).
Proof.
  intros re_compile rglob args depth rx Hrx; split.
  - intros e He; unfold main; rewrite Hrx, He; reflexivity.
  - intros keep Honly Hexcluded Hnone.
    assert (Hbuild : build_call_graph_or_raise (rglob (root args)) rx
                     = inr (build_call_graph (processed (rglob (root args))) rx)).
    { unfold build_call_graph_or_raise.
      rewrite (scan_survives rx _ _ Hexcluded); reflexivity. }
    assert (Hfiltered :
              matches (filtered (build_call_graph (processed (rglob (root args))) rx) keep)
                      (function args) = []).
    { apply matches_none; intros n Hn.
      rewrite filtered_nodes in Hn; apply filter_In in Hn; destruct Hn as [Hn Hkeep].
      apply Hnone; [apply build_node_discovered; exact Hn | exact Hkeep]. }
    unfold main; rewrite Hrx, Hbuild.
    destruct (only args) as [[|c p]|]; simpl.
    + subst keep.
      assert (Hm : matches (build_call_graph (processed (rglob (root args))) rx)
                           (function args) = []).
      { apply matches_none; intros n Hn.
        apply Hnone; [apply build_node_discovered; exact Hn | reflexivity]. }
      unfold print_caller_tree; rewrite Hm; reflexivity.
    + rewrite Honly; unfold print_caller_tree; rewrite Hfiltered; reflexivity.
    + subst keep.
      assert (Hm : matches (build_call_graph (processed (rglob (root args))) rx)
                           (function args) = []).
      { apply matches_none; intros n Hn.
        apply Hnone; [apply build_node_discovered; exact Hn | reflexivity]. }
      unfold print_caller_tree; rewrite Hm; reflexivity.
Qed.

Lemma main_reports_unknown_function_witness :
  main (fun p => Some (fun n => String.eqb n p))
       (fun _ => [Escapes "none" OSError;
                  Processed (Samples.in_module_m Samples.recursive_src)])
       (mkArgs "f" "." "none" (Some "m.r")) 4
  = Ran ([], inl (SystemExit (ExitMessage "✘ function 'f' not found"))).
Proof.
  destruct (@main_reports_unknown_function
              (fun p => Some (fun n => String.eqb n p))
              (fun _ => [Escapes "none" OSError;
                         Processed (Samples.in_module_m Samples.recursive_src)])
              (mkArgs "f" "." "none" (Some "m.r")) 4
              (fun n => String.eqb n "none")) as [_ H].
  - reflexivity.
  - apply (H (fun n => String.eqb n "m.r")).
    + reflexivity.
    + intros r e [Hin | [Hin | []]]; inversion Hin; reflexivity.
    + intros q _ Hkeep; apply String.eqb_eq in Hkeep; subst q; split.
      * discriminate.
      * intros scope Hs.
        destruct scope as [|a [|b [|c scope]]]; simpl in Hs; try discriminate.
        inversion Hs.
        destruct scope; discriminate.
Defined.
